(** * GlobalMigrationVis: the data pipeline of [app.py]

    A shallow embedding of the data-transformation code of the dashboard
    (loader, merge, selectors, globe flows, Sankey derivation) together with
    the pandas operations that code calls, followed by the properties of the
    pipeline.

    Conventions of the embedding:
    - a cell of a float column is [option Q]: [None] is pandas' NaN (a missing
      value), [Some q] a number.  Arithmetic is exact rational arithmetic;
      rounding, infinities and overflow of IEEE doubles are not modelled
      there, nor is the conversion of an integer column to float64; a
      property that depends on a stored value being unchanged carries
      [float64_exact] as its precondition.  Module [Float64] has the fill
      pipeline on binary64 cells for the properties in which the rounding
      matters;
    - a Python [str] is a [string] (its UTF-8 bytes); comparing byte strings
      lexicographically agrees with Python's code-point order;
    - a Python exception is the [Raise] case of [result]. *)

From Stdlib Require Import String Ascii ZArith QArith Bool Arith Lia Floats.
From Stdlib Require Import OrderedTypeEx Permutation Sorted List.
Import ListNotations.

Local Open Scope list_scope.

(** ** Exceptions *)

Inductive exn : Type :=
| ValueError
| KeyError
| IndexError
| StreamlitInvalidMinMaxError.

Inductive result (A : Type) : Type :=
| Ok (a : A)
| Raise (e : exn).

Arguments Ok {A} a.
Arguments Raise {A} e.

Definition bind {A B : Type} (m : result A) (k : A -> result B) : result B :=
  match m with
  | Ok a => k a
  | Raise e => Raise e
  end.

Notation "x <- m ;; k" := (bind m (fun x => k))
  (at level 61, m at next level, right associativity).

(** ** Generic list helpers: stable insertion sort, first-occurrence dedup *)

Section Sorting.
Context {A : Type}.
Variable le : A -> A -> bool.

(** [insert x l] puts [x] in front of the first element it is [le] to, so
    an element inserted later (one that came earlier in the input) stays
    ahead of its equals: the sort is stable. *)
Fixpoint insert (x : A) (l : list A) : list A :=
  match l with
  | [] => [x]
  | y :: t => if le x y then x :: y :: t else y :: insert x t
  end.

Fixpoint sort_by (l : list A) : list A :=
  match l with
  | [] => []
  | x :: t => insert x (sort_by t)
  end.
End Sorting.

Section Unique.
Context {A : Type}.
Variable eqb : A -> A -> bool.

(** Keeps the first occurrence of every element, in order of appearance. *)
Fixpoint unique_from (seen : list A) (l : list A) : list A :=
  match l with
  | [] => []
  | x :: t =>
      if existsb (eqb x) seen then unique_from seen t
      else x :: unique_from (x :: seen) t
  end.

Definition unique (l : list A) : list A := unique_from [] l.
End Unique.

(** ** The pandas operations used by the program *)

Module Pandas.

(** A float cell; [None] is NaN. *)
Definition cell : Type := option Q.

Definition notna (c : cell) : bool :=
  match c with
  | Some _ => true
  | None => false
  end.

Definition count_valid (r : list cell) : nat := length (filter notna r).

(** Equality of cells as numbers. *)
Definition cell_equiv (a b : cell) : Prop :=
  match a, b with
  | Some x, Some y => x == y
  | None, None => True
  | _, _ => False
  end.

(** *** [interpolate(axis=1)]: method linear, direction forward

    Linear interpolation treats the cells of a row as equally spaced.  With
    the default forward direction a NaN before the first valid cell stays
    NaN, a NaN between two valid cells lies on the line through them, and a
    NaN after the last valid cell takes the last valid value. *)

(** The first valid cell of [r] and the number of NaNs in front of it. *)
Fixpoint next_valid (r : list cell) : option (nat * Q) :=
  match r with
  | [] => None
  | Some w :: _ => Some (0%nat, w)
  | None :: t =>
      match next_valid t with
      | Some (k, w) => Some (S k, w)
      | None => None
      end
  end.

(** Value at offset [off] on the line from [v] (offset 0) to [w] (offset
    [gap]): slope times offset plus the left value. *)
Definition lerp (v w : Q) (off gap : nat) : Q :=
  ((w - v) / inject_Z (Z.of_nat gap)) * inject_Z (Z.of_nat off) + v.

(** [interp_after v i r]: [r] follows a valid cell [v] and [i] NaNs. *)
Fixpoint interp_after (v : Q) (i : nat) (r : list cell) : list cell :=
  match r with
  | [] => []
  | Some w :: t => Some w :: interp_after w 0 t
  | None :: t =>
      match next_valid t with
      | Some (k, w) => Some (lerp v w (S i) (i + k + 2))
      | None => Some v
      end :: interp_after v (S i) t
  end.

Fixpoint interpolate_row (r : list cell) : list cell :=
  match r with
  | [] => []
  | None :: t => None :: interpolate_row t
  | Some v :: t => Some v :: interp_after v 0 t
  end.

(** A number that float64 holds exactly, so that storing it in a float
    column does not change it: here an integer of magnitude at most 2^53. *)
Definition float64_exact (q : Q) : Prop :=
  exists n : Z, q = inject_Z n /\ (Z.abs n <= 2 ^ 53)%Z.

(** *** [bfill(axis=1)]: a NaN takes the next valid value to its right *)
Fixpoint bfill_row (r : list cell) : list cell :=
  match r with
  | [] => []
  | c :: t =>
      let t' := bfill_row t in
      match c with
      | Some v => Some v :: t'
      | None => hd None t' :: t'
      end
  end.

(** *** [ffill(axis=1)]: a NaN takes the last valid value to its left *)
Fixpoint ffill_from (last : cell) (r : list cell) : list cell :=
  match r with
  | [] => []
  | Some v :: t => Some v :: ffill_from (Some v) t
  | None :: t => last :: ffill_from last t
  end.

Definition ffill_row (r : list cell) : list cell := ffill_from None r.

(** *** Wide tables: an index of row labels, integer column labels *)
Record DataFrame : Type := mkDataFrame {
  columns : list Z;
  rows : list (string * list cell)
}.

Definition index (df : DataFrame) : list string := map fst (rows df).

Definition map_rows (f : list cell -> list cell) (df : DataFrame) : DataFrame :=
  mkDataFrame (columns df) (map (fun r => (fst r, f (snd r))) (rows df)).

Definition interpolate (df : DataFrame) : DataFrame := map_rows interpolate_row df.
Definition bfill (df : DataFrame) : DataFrame := map_rows bfill_row df.
Definition ffill (df : DataFrame) : DataFrame := map_rows ffill_row df.

(** [dropna(thresh=n)]: keep the rows with at least [n] valid cells. *)
Definition dropna (thresh : nat) (df : DataFrame) : DataFrame :=
  mkDataFrame (columns df)
    (filter (fun r => thresh <=? count_valid (snd r))%nat (rows df)).

(** [df[~df.index.isin(labels)]] *)
Definition isin (labels : list string) (s : string) : bool :=
  existsb (String.eqb s) labels.

Definition drop_isin (labels : list string) (df : DataFrame) : DataFrame :=
  mkDataFrame (columns df)
    (filter (fun r => negb (isin labels (fst r))) (rows df)).

(** [rename(index=mapper)]: a label that is a key of the dict is replaced
    by its value, any other label is kept. *)
Fixpoint dict_get (d : list (string * string)) (k : string) : option string :=
  match d with
  | [] => None
  | (k', v) :: t => if String.eqb k k' then Some v else dict_get t k
  end.

Definition rename_label (d : list (string * string)) (s : string) : string :=
  match dict_get d s with
  | Some v => v
  | None => s
  end.

Definition rename (d : list (string * string)) (df : DataFrame) : DataFrame :=
  mkDataFrame (columns df)
    (map (fun r => (rename_label d (fst r), snd r)) (rows df)).

(** *** Long tables and [pivot] *)
Record LongRow : Type := mkLongRow {
  Entity : string;
  Year : Z;
  Total : cell
}.

Definition same_key (a b : LongRow) : bool :=
  String.eqb (Entity a) (Entity b) && Z.eqb (Year a) (Year b).

Fixpoint has_duplicates (l : list LongRow) : bool :=
  match l with
  | [] => false
  | r :: t => existsb (same_key r) t || has_duplicates t
  end.

Definition lookup (l : list LongRow) (e : string) (y : Z) : cell :=
  match find (fun r => String.eqb (Entity r) e && Z.eqb (Year r) y) l with
  | Some r => Total r
  | None => None
  end.

(** [pivot(index="Entity", columns="Year", values=...)]: one row per
    entity and one column per year, both sorted; a (entity, year) pair
    without a record is NaN; a pair with two records raises. *)
Definition pivot (l : list LongRow) : result DataFrame :=
  if has_duplicates l then Raise ValueError
  else
    let cols := sort_by Z.leb (unique Z.eqb (map Year l)) in
    let idx := sort_by String.leb (unique String.eqb (map Entity l)) in
    Ok (mkDataFrame cols
          (map (fun e => (e, map (lookup l e) cols)) idx)).

End Pandas.

(** ** The fill pipeline on IEEE doubles

    The three calls of line 15 once more, on the cells as pandas holds them:
    binary64 numbers, a missing value being a NaN.  Every operation rounds as
    the hardware does (the product and the sum of the interpolation are
    rounded separately). *)

Module Float64.

Definition notna (c : float) : bool := negb (PrimFloat.is_nan c).

Definition of_nat (n : nat) : float :=
  PrimFloat.of_uint63 (Uint63.of_Z (Z.of_nat n)).

(** The first valid cell of [r] and the number of NaNs in front of it. *)
Fixpoint next_valid (r : list float) : option (nat * float) :=
  match r with
  | [] => None
  | c :: t =>
      if PrimFloat.is_nan c then
        match next_valid t with
        | Some (k, w) => Some (S k, w)
        | None => None
        end
      else Some (0%nat, c)
  end.

(** [numpy.interp] between the valid cell [v] at offset 0 and the valid cell
    [w] at offset [gap]: slope times offset plus the left value; when that is
    NaN, the same from the right end; when that is NaN too and both ends are
    equal, the left value. *)
Definition lerp (v w : float) (off gap : nat) : float :=
  let slope := PrimFloat.div (PrimFloat.sub w v) (of_nat gap) in
  let res := PrimFloat.add (PrimFloat.mul slope (of_nat off)) v in
  if PrimFloat.is_nan res then
    let res' :=
      PrimFloat.add (PrimFloat.mul slope (PrimFloat.sub (of_nat off) (of_nat gap))) w in
    if PrimFloat.is_nan res' && PrimFloat.eqb v w then v else res'
  else res.

Fixpoint interp_after (v : float) (i : nat) (r : list float) : list float :=
  match r with
  | [] => []
  | c :: t =>
      if PrimFloat.is_nan c then
        match next_valid t with
        | Some (k, w) => lerp v w (S i) (i + k + 2)
        | None => v
        end :: interp_after v (S i) t
      else c :: interp_after c 0 t
  end.

Fixpoint interpolate_row (r : list float) : list float :=
  match r with
  | [] => []
  | c :: t =>
      if PrimFloat.is_nan c then c :: interpolate_row t
      else c :: interp_after c 0 t
  end.

Fixpoint bfill_row (r : list float) : list float :=
  match r with
  | [] => []
  | c :: t =>
      let t' := bfill_row t in
      if PrimFloat.is_nan c then hd c t' :: t' else c :: t'
  end.

Fixpoint ffill_from (last : option float) (r : list float) : list float :=
  match r with
  | [] => []
  | c :: t =>
      if PrimFloat.is_nan c then
        match last with Some v => v | None => c end :: ffill_from last t
      else c :: ffill_from (Some c) t
  end.

Definition ffill_row (r : list float) : list float := ffill_from None r.

Definition fill_row (r : list float) : list float :=
  ffill_row (bfill_row (interpolate_row r)).

End Float64.

(** ** The program *)

Module App.
Import Pandas.

(** *** Loading and cleaning the migration table *)

Definition aggregates : list string :=
  [ "Africa"; "Americas"; "Asia"; "Europe"; "European Union"; "High income";
    "Low income"; "Lower middle income"; "Upper middle income"; "Oceania";
    "World"; "North America"; "South America"; "Sub-Saharan Africa";
    "Middle East" ]%string.

Definition fix_names : list (string * string) :=
  [ ("United States", "United States of America");
    ("Czechia", "Czech Republic");
    ("Democratic Republic of Congo", "Democratic Republic of the Congo");
    ("Republic of Congo", "Republic of the Congo");
    ("Eswatini", "Swaziland");
    ("Timor", "Timor-Leste");
    ("Myanmar", "Burma");
    ("North Macedonia", "Macedonia");
    ("South Sudan", "Sudan");
    ("Laos", "Lao PDR") ]%string.

(** The three fills of one row, in the order of the source line
    [interpolate(axis=1).bfill(axis=1).ffill(axis=1)]. *)
Definition fill_row (r : list cell) : list cell :=
  ffill_row (bfill_row (interpolate_row r)).

(** The table before the labels are renamed. *)
Definition clean (df_wide : DataFrame) : DataFrame :=
  let df_wide := dropna 5 df_wide in
  let df_wide := ffill (bfill (interpolate df_wide)) in
  drop_isin aggregates df_wide.

(** [load_migration_data], on the records read from the CSV file. *)
Definition load_migration_data (csv : list LongRow) : result DataFrame :=
  df_wide <- pivot csv ;;
  Ok (rename fix_names (clean df_wide)).

(** *** Loading the geometries *)

(** A boundary polygon, reduced to what the program reads from it: the
    coordinates of its centroid. *)
Record Geometry : Type := mkGeometry {
  centroid_x : Q;
  centroid_y : Q
}.

(** A record of the shapefile. *)
Record ShapeRow : Type := mkShapeRow {
  ADMIN : string;
  shape : Geometry
}.

(** A row of [world]: the column [ADMIN] is now called [Entity]. *)
Record WorldRow : Type := mkWorldRow {
  w_Entity : string;
  w_geometry : Geometry
}.

Definition load_geometries (shp : list ShapeRow) : list WorldRow :=
  map (fun s => mkWorldRow (ADMIN s) (shape s)) shp.

(** *** Merge *)

Record MergedRow : Type := mkMergedRow {
  m_Entity : string;
  m_geometry : Geometry;
  m_values : list cell;
  centroid_lon : Q;
  centroid_lat : Q
}.

Record Merged : Type := mkMerged {
  m_columns : list Z;
  m_rows : list MergedRow
}.

(** [world.merge(df_wide, on='Entity', how='inner')] followed by the two
    centroid columns: every pair of a [world] row and a [df_wide] row with
    the same [Entity], in the order of the left rows. *)
Definition merge (world : list WorldRow) (df_wide : DataFrame) : Merged :=
  mkMerged (columns df_wide)
    (flat_map
       (fun w =>
          map (fun r =>
                 mkMergedRow (w_Entity w) (w_geometry w) (snd r)
                   (centroid_x (w_geometry w)) (centroid_y (w_geometry w)))
            (filter (fun r => String.eqb (w_Entity w) (fst r)) (rows df_wide)))
       world).

Definition entities (merged : Merged) : list string :=
  map m_Entity (m_rows merged).

(** *** Selectors *)

Definition years (df_wide : DataFrame) : list Z :=
  sort_by Z.leb (columns df_wide).

(** Python's [max]: raises on an empty list. *)
Definition py_max (l : list Z) : result Z :=
  match l with
  | [] => Raise ValueError
  | x :: t => Ok (fold_left Z.max t x)
  end.

Definition default_year (df_wide : DataFrame) : result Z :=
  py_max (years df_wide).

(** Python's [min]: raises on an empty list. *)
Definition py_min (l : list Z) : result Z :=
  match l with
  | [] => Raise ValueError
  | x :: t => Ok (fold_left Z.min t x)
  end.

(** [st.slider(label, min_value, max_value, value, step=5)]: refused when
    the minimum is not below the maximum; otherwise the year held by the
    widget, [value] while the user has not moved it. *)
Definition slider (min_value max_value value : Z) (widget : option Z) : result Z :=
  if Z.ltb min_value max_value
  then Ok (match widget with Some y => y | None => value end)
  else Raise StreamlitInvalidMinMaxError.

Definition country_options (merged : Merged) : list string :=
  sort_by String.leb (unique String.eqb (entities merged)).

(** [st.selectbox(..., country_options, index=0)] before the user picks
    anything: the option at position 0, [None] for an empty list. *)
Definition default_dest (merged : Merged) : option string :=
  hd_error (country_options merged).

(** [row[year]]: the cell of a row under the column labelled [year]. *)
Fixpoint row_get (cols : list Z) (vals : list cell) (year : Z) : result cell :=
  match cols, vals with
  | c :: cs, v :: vs => if Z.eqb c year then Ok v else row_get cs vs year
  | _, _ => Raise KeyError
  end.

Definition has_column (cols : list Z) (year : Z) : bool :=
  existsb (Z.eqb year) cols.

(** *** Choropleth: the value of every row at the selected year *)
Fixpoint choropleth_rows (cols : list Z) (l : list MergedRow) (year : Z)
  : result (list (string * Geometry * cell)) :=
  match l with
  | [] => Ok []
  | r :: t =>
      v <- row_get cols (m_values r) year ;;
      rest <- choropleth_rows cols t year ;;
      Ok ((m_Entity r, m_geometry r, v) :: rest)
  end.

Definition choropleth (merged : Merged) (year : Z)
  : result (list (string * Geometry * cell)) :=
  if has_column (m_columns merged) year
  then choropleth_rows (m_columns merged) (m_rows merged) year
  else Raise ValueError.

(** *** 3D globe: the flow loop *)

Record FlowRecord : Type := mkFlow {
  from_lon : Q;
  from_lat : Q;
  to_lon : Q;
  to_lat : Q;
  migrants : cell
}.

(** [merged[merged['Entity'] == selected_dest].iloc[0]] *)
Definition dest_row (merged : Merged) (selected_dest : string) : result MergedRow :=
  match filter (fun r => String.eqb (m_Entity r) selected_dest) (m_rows merged) with
  | [] => Raise IndexError
  | d :: _ => Ok d
  end.

(** The [for ... in merged.iterrows()] loop; [flows] is the list built so
    far. *)
Fixpoint flow_loop (cols : list Z) (l : list MergedRow) (selected_dest : string)
    (dest : MergedRow) (year : Z) (flows : list FlowRecord)
  : result (list FlowRecord) :=
  match l with
  | [] => Ok flows
  | src_row :: t =>
      if negb (String.eqb (m_Entity src_row) selected_dest) then
        v <- row_get cols (m_values src_row) year ;;
        flow_loop cols t selected_dest dest year
          (flows ++ [ mkFlow (centroid_lon src_row) (centroid_lat src_row)
                        (centroid_lon dest) (centroid_lat dest) v ])
      else flow_loop cols t selected_dest dest year flows
  end.

Definition globe_flows (merged : Merged) (selected_dest : string) (year : Z)
  : result (list FlowRecord) :=
  dest <- dest_row merged selected_dest ;;
  flow_loop (m_columns merged) (m_rows merged) selected_dest dest year [].

(** *** Sankey diagram: top sources of the selected destination *)

Definition N : nat := 10.

(** A row of [sources_df]: the value at the selected year and the label. *)
Definition SourceRow : Type := (string * cell)%type.

Fixpoint source_rows (cols : list Z) (l : list MergedRow) (year : Z)
  : result (list SourceRow) :=
  match l with
  | [] => Ok []
  | r :: t =>
      v <- row_get cols (m_values r) year ;;
      rest <- source_rows cols t year ;;
      Ok ((m_Entity r, v) :: rest)
  end.

Definition sources_df (merged : Merged) (selected_dest : string) (year : Z)
  : result (list SourceRow) :=
  if has_column (m_columns merged) year
  then source_rows (m_columns merged)
         (filter (fun r => negb (String.eqb (m_Entity r) selected_dest))
            (m_rows merged))
         year
  else Raise KeyError.

(** Descending order on cells; NaN ranks below every number. *)
Definition cell_geb (a b : cell) : bool :=
  match a, b with
  | Some x, Some y => Qle_bool y x
  | Some _, None => true
  | None, Some _ => false
  | None, None => true
  end.

(** [nlargest(n, year)], keep first: the first [n] rows of the table
    sorted by value, largest first, equal values in their original order. *)
Definition nlargest (n : nat) (l : list SourceRow) : list SourceRow :=
  firstn n (sort_by (fun a b => cell_geb (snd a) (snd b)) l).

(** Python's [list.index]: position of the first occurrence. *)
Fixpoint py_index (x : string) (l : list string) : result nat :=
  match l with
  | [] => Raise ValueError
  | y :: t =>
      if String.eqb y x then Ok 0%nat
      else i <- py_index x t ;; Ok (S i)
  end.

Record SankeyData : Type := mkSankey {
  labels : list string;
  sankey_source : list nat;
  sankey_target : list nat;
  sankey_value : list cell
}.

(** The [for idx, row in top_sources.iterrows()] loop over the three
    accumulators. *)
Fixpoint sankey_loop (labels : list string) (target_index : nat)
    (top : list SourceRow) (src tgt : list nat) (val : list cell)
  : result (list nat * list nat * list cell) :=
  match top with
  | [] => Ok (src, tgt, val)
  | row :: t =>
      i <- py_index (fst row) labels ;;
      sankey_loop labels target_index t
        (src ++ [i]) (tgt ++ [target_index]) (val ++ [snd row])
  end.

Definition sankey (merged : Merged) (selected_dest : string) (year : Z)
  : result SankeyData :=
  sources <- sources_df merged selected_dest year ;;
  let top_sources := nlargest N sources in
  let labels := map fst top_sources ++ [selected_dest] in
  let target_index := N in
  acc <- sankey_loop labels target_index top_sources [] [] [] ;;
  let '(src, tgt, val) := acc in
  Ok (mkSankey labels src tgt val).

(** *** The script, its cached loaders and a session of reruns *)

(** The two input files, as the records read from them. *)
Record Files : Type := mkFiles {
  migration_csv : list LongRow;
  shapefile : list ShapeRow
}.

(** The process-wide store of [st.cache_data]: one entry per loader, since
    neither loader takes an argument. *)
Record Cache : Type := mkCache {
  cached_migration : option DataFrame;
  cached_world : option (list WorldRow)
}.

Definition empty_cache : Cache := mkCache None None.

(** A computation that reads and updates the cache. *)
Definition Cached (A : Type) : Type := Cache -> A * Cache.

(** A loader that raises stores nothing. *)
Definition cached_load_migration_data (fs : Files) : Cached (result DataFrame) :=
  fun c =>
    match cached_migration c with
    | Some df => (Ok df, c)
    | None =>
        match load_migration_data (migration_csv fs) with
        | Ok df => (Ok df, mkCache (Some df) (cached_world c))
        | Raise e => (Raise e, c)
        end
    end.

Definition cached_load_geometries (fs : Files) : Cached (list WorldRow) :=
  fun c =>
    match cached_world c with
    | Some w => (w, c)
    | None =>
        let w := load_geometries (shapefile fs) in
        (w, mkCache (cached_migration c) (Some w))
    end.

(** The state of the two widgets: [None] is a widget the user has not
    touched, which then returns its default. *)
Record Selection : Type := mkSelection {
  slider_year : option Z;
  selectbox_dest : option string
}.

Record Derived : Type := mkDerived {
  choropleth_values : list (string * Geometry * cell);
  flow_records : list FlowRecord;
  sankey_data : SankeyData
}.

(** Everything after the two loads. *)
Definition derive (world : list WorldRow) (df_wide : DataFrame) (sel : Selection)
  : result Derived :=
  let merged := merge world df_wide in
  dy <- default_year df_wide ;;
  lo <- py_min (years df_wide) ;;
  hi <- py_max (years df_wide) ;;
  year <- slider lo hi dy (slider_year sel) ;;
  let selected_dest :=
    match selectbox_dest sel with
    | Some d => Some d
    | None => default_dest merged
    end in
  ch <- choropleth merged year ;;
  match selected_dest with
  | None => Raise IndexError
  | Some dest =>
      fl <- globe_flows merged dest year ;;
      sk <- sankey merged dest year ;;
      Ok (mkDerived ch fl sk)
  end.

(** One run of the script. *)
Definition script (fs : Files) (sel : Selection) : Cached (result Derived) :=
  fun c =>
    let (r, c1) := cached_load_migration_data fs c in
    match r with
    | Raise e => (Raise e, c1)
    | Ok df_wide =>
        let (world, c2) := cached_load_geometries fs c1 in
        (derive world df_wide sel, c2)
    end.

(** A session: the script is run once per selection, on one cache. *)
Fixpoint session (fs : Files) (sels : list Selection) (c : Cache)
  : list (result Derived) :=
  match sels with
  | [] => []
  | sel :: t =>
      let (out, c') := script fs sel c in
      out :: session fs t c'
  end.

(** A run without the cache: both loaders are evaluated. *)
Definition uncached_run (fs : Files) (sel : Selection) : result Derived :=
  df_wide <- load_migration_data (migration_csv fs) ;;
  derive (load_geometries (shapefile fs)) df_wide sel.

(** What the cache holds was loaded from the files [fs]. *)
Definition cache_agrees (fs : Files) (c : Cache) : Prop :=
  (forall df, cached_migration c = Some df ->
              load_migration_data (migration_csv fs) = Ok df)
  /\ (forall w, cached_world c = Some w -> w = load_geometries (shapefile fs)).

End App.

(** ** Small inputs used to exercise the definitions *)

Module Samples.
Import Pandas App.
Local Open Scope string_scope.
Local Open Scope Z_scope.

(** The records of one entity, from (year, value) pairs. *)
Definition series (e : string) (l : list (Z * Z)) : list LongRow :=
  map (fun p => mkLongRow e (fst p) (Some (inject_Z (snd p)))) l.

(** Six years; Chad lacks 1990 (five valid cells), Tuvalu has four valid
    cells, World is an aggregate. *)
Definition small_csv : list LongRow :=
  (series "Laos" [(1990, 10); (1995, 20); (2000, 30); (2005, 40); (2010, 50); (2015, 60)]
   ++ series "World" [(1990, 900); (1995, 910); (2000, 920); (2005, 930); (2010, 940); (2015, 950)]
   ++ series "Chad" [(1995, 7); (2000, 9); (2005, 11); (2010, 13); (2015, 15)]
   ++ series "Tuvalu" [(1990, 1); (1995, 2); (2000, 3); (2005, 4)]
   ++ series "Peru" [(1990, 80); (1995, 70); (2000, 60); (2005, 50); (2010, 40); (2015, 30)])%list.

Definition small_wide : DataFrame :=
  Eval vm_compute in
    match pivot small_csv with
    | Ok df => df
    | Raise _ => mkDataFrame [] []
    end.

Definition small_table : DataFrame :=
  Eval vm_compute in
    match load_migration_data small_csv with
    | Ok df => df
    | Raise _ => mkDataFrame [] []
    end.

(** Two countries of the source table that the name map sends to one
    label. *)
Definition two_sudans_csv : list LongRow :=
  (series "Sudan" [(1990, 11); (1995, 12); (2000, 13); (2005, 14); (2010, 15)]
   ++ series "South Sudan" [(1990, 1); (1995, 2); (2000, 3); (2005, 4); (2010, 5)])%list.

Definition two_sudans_wide : DataFrame :=
  Eval vm_compute in
    match pivot two_sudans_csv with
    | Ok df => df
    | Raise _ => mkDataFrame [] []
    end.

Definition point (x y : Z) : Geometry := mkGeometry (inject_Z x) (inject_Z y).

Definition small_shapes : list ShapeRow :=
  [ mkShapeRow "Peru" (point (-75) (-10));
    mkShapeRow "Fiji" (point 178 (-17));
    mkShapeRow "Lao PDR" (point 103 18);
    mkShapeRow "Chad" (point 18 15) ].

Definition small_files : Files := mkFiles small_csv small_shapes.

(** The same countries with other figures, as if the CSV file had been
    replaced on disk. *)
Definition later_csv : list LongRow :=
  (series "Laos" [(1990, 11); (1995, 21); (2000, 31); (2005, 41); (2010, 51); (2015, 61)]
   ++ series "Chad" [(1990, 5); (1995, 7); (2000, 9); (2005, 11); (2010, 13); (2015, 17)]
   ++ series "Peru" [(1990, 80); (1995, 70); (2000, 60); (2005, 50); (2010, 40); (2015, 35)])%list.

Definition later_files : Files := mkFiles later_csv small_shapes.

Definition small_merged : Merged :=
  Eval vm_compute in merge (load_geometries small_shapes) small_table.

(** The two Sudans next to a third country, merged with a geometry table
    that has one Sudan polygon. *)
Definition sudans_merged : Merged :=
  Eval vm_compute in
    match load_migration_data
            (two_sudans_csv
             ++ series "Chad" [(1990, 7); (1995, 7); (2000, 9); (2005, 11); (2010, 13)])%list
    with
    | Ok df =>
        merge (load_geometries
                 [ mkShapeRow "Sudan" (point 30 15); mkShapeRow "Chad" (point 18 15) ])
          df
    | Raise _ => mkMerged [] []
    end.

(** A merged table with one year column and twelve countries. *)
Definition twelve_merged : Merged :=
  mkMerged [2020]
    (map (fun p => mkMergedRow (fst p) (point 0 0) [Some (inject_Z (snd p))]
                     (inject_Z 0) (inject_Z 0))
       [ ("Chad", 13); ("Peru", 30); ("Fiji", 2); ("Mali", 13); ("Cuba", 1);
         ("Iran", 90); ("Oman", 45); ("Togo", 6); ("Niue", 0); ("Laos", 60);
         ("Iraq", 70); ("Guam", 8) ]).

End Samples.

(** * Properties *)

(** ** Facts about the list helpers *)

Section SortingFacts.
Context {A : Type}.
Variable le : A -> A -> bool.

Lemma insert_perm (x : A) (l : list A) : Permutation (x :: l) (insert le x l).
Proof.
  induction l as [|y t IH]; simpl.
  - apply Permutation_refl.
  - destruct (le x y).
    + apply Permutation_refl.
    + eapply perm_trans; [apply perm_swap|].
      apply perm_skip, IH.
Qed.

Lemma sort_by_perm (l : list A) : Permutation l (sort_by le l).
Proof.
  induction l as [|x t IH]; simpl.
  - apply perm_nil.
  - eapply perm_trans; [apply perm_skip, IH|apply insert_perm].
Qed.

Lemma sort_by_In (l : list A) (x : A) : In x (sort_by le l) <-> In x l.
Proof.
  split; apply Permutation_in;
    [apply Permutation_sym|]; apply sort_by_perm.
Qed.

Lemma sort_by_length (l : list A) : length (sort_by le l) = length l.
Proof. symmetry. apply Permutation_length, sort_by_perm. Qed.

Lemma sort_by_NoDup (l : list A) : NoDup l -> NoDup (sort_by le l).
Proof. apply Permutation_NoDup, sort_by_perm. Qed.

Hypothesis le_total : forall x y, le x y = true \/ le y x = true.
Hypothesis le_trans : forall x y z, le x y = true -> le y z = true -> le x z = true.

Lemma insert_sorted (x : A) (l : list A) :
  Sorted (fun a b => le a b = true) l ->
  Sorted (fun a b => le a b = true) (insert le x l).
Proof.
  induction 1 as [|y t Hs IH Hhd]; simpl.
  - repeat constructor.
  - destruct (le x y) eqn:E.
    + constructor; [constructor; assumption|constructor; assumption].
    + constructor; [assumption|].
      assert (Hyx : le y x = true).
      { destruct (le_total x y) as [H|H]; [congruence|exact H]. }
      destruct t as [|z t']; simpl.
      * constructor. exact Hyx.
      * destruct (le x z); constructor; [exact Hyx|].
        inversion Hhd; assumption.
Qed.

Lemma sort_by_sorted (l : list A) :
  Sorted (fun a b => le a b = true) (sort_by le l).
Proof.
  induction l as [|x t IH]; simpl.
  - constructor.
  - apply insert_sorted, IH.
Qed.

Lemma sorted_head_le (x : A) (l : list A) :
  Sorted (fun a b => le a b = true) (x :: l) ->
  Forall (fun y => le x y = true) l.
Proof.
  intros H. apply Sorted_StronglySorted in H.
  - inversion H; assumption.
  - intros a b c. apply le_trans.
Qed.
End SortingFacts.

Section UniqueFacts.
Context {A : Type}.
Variable eqb : A -> A -> bool.
Hypothesis eqb_eq : forall x y, eqb x y = true <-> x = y.

Lemma existsb_eqb_In (x : A) (l : list A) :
  existsb (eqb x) l = true <-> In x l.
Proof.
  rewrite existsb_exists. split.
  - intros [y [Hy E]]. apply eqb_eq in E. subst. exact Hy.
  - intros H. exists x. split; [exact H|apply eqb_eq; reflexivity].
Qed.

Lemma unique_from_In (l seen : list A) (x : A) :
  In x (unique_from eqb seen l) <-> In x l /\ ~ In x seen.
Proof.
  revert seen. induction l as [|y t IH]; intros seen; simpl.
  - tauto.
  - destruct (existsb (eqb y) seen) eqn:E.
    + apply existsb_eqb_In in E. rewrite IH. split.
      * tauto.
      * intros [[->|H] Hn]; [contradiction|tauto].
    + assert (Hy : ~ In y seen).
      { intros H. apply existsb_eqb_In in H. congruence. }
      simpl. rewrite IH. simpl. split.
      * intros [->|[H Hn]]; [tauto|]. split; [tauto|]. intros H'. apply Hn. tauto.
      * intros [[->|H] Hn]; [tauto|].
        destruct (eqb y x) eqn:Eyx.
        -- apply eqb_eq in Eyx. tauto.
        -- right. split; [exact H|]. intros [->|H']; [|tauto].
           assert (eqb x x = true) by (apply eqb_eq; reflexivity). congruence.
Qed.

Lemma unique_from_NoDup (l seen : list A) : NoDup (unique_from eqb seen l).
Proof.
  revert seen. induction l as [|y t IH]; intros seen; simpl.
  - constructor.
  - destruct (existsb (eqb y) seen); [apply IH|].
    constructor; [|apply IH].
    rewrite unique_from_In. simpl. tauto.
Qed.

Lemma unique_In (l : list A) (x : A) : In x (unique eqb l) <-> In x l.
Proof. unfold unique. rewrite unique_from_In. simpl. tauto. Qed.

Lemma unique_NoDup (l : list A) : NoDup (unique eqb l).
Proof. apply unique_from_NoDup. Qed.
End UniqueFacts.

(** The byte-wise order on strings is transitive. *)
Lemma string_leb_trans (x y z : string) :
  String.leb x y = true -> String.leb y z = true -> String.leb x z = true.
Proof.
  unfold String.leb. intros Hxy Hyz.
  destruct (String.compare x y) eqn:Exy; try discriminate.
  - apply String_as_OT.cmp_eq in Exy. subst. exact Hyz.
  - destruct (String.compare y z) eqn:Eyz; try discriminate.
    + apply String_as_OT.cmp_eq in Eyz. subst. rewrite Exy. reflexivity.
    + apply String_as_OT.cmp_lt in Exy. apply String_as_OT.cmp_lt in Eyz.
      pose proof (String_as_OT.lt_trans _ _ _ Exy Eyz) as H.
      apply String_as_OT.cmp_lt in H. unfold String_as_OT.cmp in H.
      rewrite H. reflexivity.
Qed.

(** ** The fill pipeline *)

Section FillFacts.
Import Pandas App.

Lemma fill_rows (df : DataFrame) :
  rows (ffill (bfill (interpolate df)))
  = map (fun r => (fst r, fill_row (snd r))) (rows df).
Proof.
  unfold ffill, bfill, interpolate, map_rows, fill_row; simpl.
  rewrite !map_map. reflexivity.
Qed.

Lemma interp_after_length (r : list cell) :
  forall v i, length (interp_after v i r) = length r.
Proof.
  induction r as [|[w|] t IH]; intros v i; simpl;
    [reflexivity| |]; rewrite IH; reflexivity.
Qed.

Lemma interpolate_row_length (r : list cell) :
  length (interpolate_row r) = length r.
Proof.
  induction r as [|[w|] t IH]; simpl; [reflexivity| |].
  - rewrite interp_after_length. reflexivity.
  - rewrite IH. reflexivity.
Qed.

Lemma bfill_row_length (r : list cell) : length (bfill_row r) = length r.
Proof.
  induction r as [|[w|] t IH]; simpl; [reflexivity| |]; rewrite IH; reflexivity.
Qed.

Lemma ffill_from_length (r : list cell) :
  forall last, length (ffill_from last r) = length r.
Proof.
  induction r as [|[w|] t IH]; intros last; simpl;
    [reflexivity| |]; rewrite IH; reflexivity.
Qed.

Lemma fill_row_length (r : list cell) : length (fill_row r) = length r.
Proof.
  unfold fill_row, ffill_row.
  rewrite ffill_from_length, bfill_row_length, interpolate_row_length.
  reflexivity.
Qed.

(** Interpolation never loses a valid cell. *)
Lemma interpolate_row_keeps_valid (r : list cell) :
  (0 < count_valid r)%nat -> (0 < count_valid (interpolate_row r))%nat.
Proof.
  unfold count_valid.
  induction r as [|[w|] t IH]; simpl; intros H.
  - exact H.
  - apply Nat.lt_0_succ.
  - apply IH, H.
Qed.

(** After the backward fill a row with a valid cell starts with one. *)
Lemma bfill_row_head (r : list cell) :
  (0 < count_valid r)%nat -> exists v t, bfill_row r = Some v :: t.
Proof.
  unfold count_valid.
  induction r as [|[w|] t IH]; simpl; intros H.
  - inversion H.
  - eauto.
  - destruct (IH H) as [v [t' E]]. rewrite E. simpl. eauto.
Qed.

(** Once a valid value is carried, the forward fill leaves no NaN. *)
Lemma ffill_from_valid (r : list cell) :
  forall v, Forall (fun c => notna c = true) (ffill_from (Some v) r).
Proof.
  induction r as [|[w|] t IH]; intros v; simpl; constructor;
    try reflexivity; apply IH.
Qed.

Lemma fill_row_valid (r : list cell) :
  (0 < count_valid r)%nat -> Forall (fun c => notna c = true) (fill_row r).
Proof.
  intros H. unfold fill_row, ffill_row.
  destruct (bfill_row_head (interpolate_row r)) as [v [t E]].
  - apply interpolate_row_keeps_valid, H.
  - rewrite E. simpl. constructor; [reflexivity|apply ffill_from_valid].
Qed.
End FillFacts.

(** ** Renaming and the exclusion of aggregates *)

Section RenameFacts.
Import Pandas App.

Lemma dict_get_In (d : list (string * string)) (k v : string) :
  dict_get d k = Some v -> In (k, v) d.
Proof.
  induction d as [|[k' v'] t IH]; simpl; [discriminate|].
  destruct (String.eqb_spec k k') as [->|Hne].
  - intros [= ->]. left. reflexivity.
  - intros H. right. apply IH, H.
Qed.

(** A renamed label is the label itself or a value of the dict. *)
Lemma rename_label_cases (d : list (string * string)) (s : string) :
  (dict_get d s = None /\ rename_label d s = s)
  \/ In (s, rename_label d s) d.
Proof.
  unfold rename_label. destruct (dict_get d s) as [v|] eqn:E.
  - right. apply dict_get_In, E.
  - left. split; reflexivity.
Qed.

Lemma isin_false_iff (l : list string) (s : string) :
  isin l s = false <-> ~ In s l.
Proof.
  unfold isin. rewrite <- not_true_iff_false.
  rewrite (existsb_eqb_In String.eqb String.eqb_eq). tauto.
Qed.

(** No value of [fix_names] is an aggregate label. *)
Lemma fix_names_values_not_aggregates (k v : string) :
  In (k, v) fix_names -> isin aggregates v = false.
Proof.
  unfold fix_names. simpl.
  intros H; repeat (destruct H as [[= <- <-]|H]; [reflexivity|]).
  contradiction.
Qed.

Lemma rename_keeps_non_aggregate (s : string) :
  isin aggregates s = false ->
  isin aggregates (rename_label fix_names s) = false.
Proof.
  intros H. destruct (rename_label_cases fix_names s) as [[_ ->]|Hin].
  - exact H.
  - eapply fix_names_values_not_aggregates, Hin.
Qed.

Lemma index_rename (d : list (string * string)) (df : DataFrame) :
  index (rename d df) = map (rename_label d) (index df).
Proof. unfold index, rename; simpl. rewrite !map_map. reflexivity. Qed.

Lemma index_map_rows (f : list cell -> list cell) (df : DataFrame) :
  index (map_rows f df) = index df.
Proof. unfold index, map_rows; simpl. rewrite map_map. reflexivity. Qed.

Lemma index_drop_isin (l : list string) (df : DataFrame) (s : string) :
  In s (index (drop_isin l df)) <-> In s (index df) /\ isin l s = false.
Proof.
  unfold index, drop_isin; simpl. rewrite !in_map_iff. split.
  - intros [r [<- Hr]]. apply filter_In in Hr. destruct Hr as [Hr Hb].
    apply negb_true_iff in Hb. split; [exists r; tauto|exact Hb].
  - intros [[r [<- Hr]] Hb]. exists r. split; [reflexivity|].
    apply filter_In. split; [exact Hr|]. rewrite Hb. reflexivity.
Qed.

Lemma load_migration_data_inv (csv : list LongRow) (df : DataFrame) :
  load_migration_data csv = Ok df ->
  exists wide, pivot csv = Ok wide /\ df = rename fix_names (clean wide).
Proof.
  unfold load_migration_data, bind.
  destruct (pivot csv) as [wide|e]; [|discriminate].
  intros [= <-]. exists wide. split; reflexivity.
Qed.
End RenameFacts.

(** C7. After the loader completes (the renaming runs after the exclusion
    filter), no row label of the table is one of the fifteen aggregate
    labels Africa, Americas, Asia, Europe, European Union, High income, Low
    income, Lower middle income, Upper middle income, Oceania, World, North
    America, South America, Sub-Saharan Africa, Middle East. *)
Theorem C7_no_aggregate_after_load (csv : list Pandas.LongRow) (df : Pandas.DataFrame) :
  App.load_migration_data csv = Ok df ->
  length App.aggregates = 15%nat
  /\ forall name, In name (Pandas.index df) -> ~ In name App.aggregates.
Proof.
  intros H. split; [reflexivity|].
  destruct (load_migration_data_inv _ _ H) as [wide [_ ->]].
  intros name Hin. rewrite index_rename in Hin.
  apply in_map_iff in Hin. destruct Hin as [s [<- Hs]].
  apply isin_false_iff, rename_keeps_non_aggregate.
  unfold App.clean in Hs. apply index_drop_isin in Hs. tauto.
Qed.

(** C8. The name normalization is idempotent: for every label, applying the
    ten-entry map twice gives the same label as applying it once; no value
    of the map is one of its keys; and renaming a table twice is renaming it
    once. *)
Theorem C8_fix_names_idempotent :
  length App.fix_names = 10%nat
  /\ (forall s : string,
        Pandas.rename_label App.fix_names (Pandas.rename_label App.fix_names s)
        = Pandas.rename_label App.fix_names s)
  /\ (forall k v : string,
        In (k, v) App.fix_names -> Pandas.dict_get App.fix_names v = None)
  /\ (forall df : Pandas.DataFrame,
        Pandas.rename App.fix_names (Pandas.rename App.fix_names df)
        = Pandas.rename App.fix_names df).
Proof.
  assert (Hval : forall k v : string,
             In (k, v) App.fix_names -> Pandas.dict_get App.fix_names v = None).
  { unfold App.fix_names. simpl.
    intros k v H; repeat (destruct H as [[= <- <-]|H]; [reflexivity|]).
    contradiction. }
  assert (Hidem : forall s : string,
             Pandas.rename_label App.fix_names (Pandas.rename_label App.fix_names s)
             = Pandas.rename_label App.fix_names s).
  { intros s. destruct (rename_label_cases App.fix_names s) as [[_ E]|Hin].
    - rewrite E. exact E.
    - unfold Pandas.rename_label at 1. rewrite (Hval _ _ Hin). reflexivity. }
  split; [reflexivity|]. split; [exact Hidem|]. split; [exact Hval|].
  intros df. unfold Pandas.rename; simpl. rewrite map_map. f_equal.
  apply map_ext. intros r; simpl. rewrite Hidem. reflexivity.
Qed.

(** ** The pivoted table and the cleaning steps *)

Section LoaderFacts.
Import Pandas App.

Lemma pivot_inv (csv : list LongRow) (wide : DataFrame) :
  pivot csv = Ok wide ->
  has_duplicates csv = false
  /\ columns wide = sort_by Z.leb (unique Z.eqb (map Year csv))
  /\ index wide = sort_by String.leb (unique String.eqb (map Entity csv))
  /\ rows wide = map (fun e => (e, map (lookup csv e) (columns wide))) (index wide).
Proof.
  unfold pivot. destruct (has_duplicates csv); [discriminate|].
  intros [= <-]. unfold index; simpl.
  rewrite map_map; simpl. rewrite map_id. repeat split; reflexivity.
Qed.

Lemma pivot_index_NoDup (csv : list LongRow) (wide : DataFrame) :
  pivot csv = Ok wide -> NoDup (index wide).
Proof.
  intros H. destruct (pivot_inv _ _ H) as (_ & _ & -> & _).
  apply sort_by_NoDup, unique_NoDup, String.eqb_eq.
Qed.

Lemma pivot_row_length (csv : list LongRow) (wide : DataFrame) :
  pivot csv = Ok wide ->
  forall e cells, In (e, cells) (rows wide) -> length cells = length (columns wide).
Proof.
  intros H e cells Hin. destruct (pivot_inv _ _ H) as (_ & _ & _ & E).
  rewrite E in Hin. apply in_map_iff in Hin. destruct Hin as [e' [[= _ <-] _]].
  apply length_map.
Qed.

(** In a list of pairs with distinct first components, the first component
    determines the second. *)
Lemma NoDup_fst_functional {A B : Type} (l : list (A * B)) (a : A) (b c : B) :
  NoDup (map fst l) -> In (a, b) l -> In (a, c) l -> b = c.
Proof.
  induction l as [|[a' b'] t IH]; simpl; [contradiction|].
  intros Hnd Hb Hc. inversion Hnd as [|? ? Hnotin Hnd']; subst.
  destruct Hb as [Hb|Hb], Hc as [Hc|Hc].
  - congruence.
  - exfalso. inversion Hb; subst. apply Hnotin. apply in_map_iff.
    exists (a, c). split; [reflexivity|exact Hc].
  - exfalso. inversion Hc; subst. apply Hnotin. apply in_map_iff.
    exists (a, b). split; [reflexivity|exact Hb].
  - apply IH; assumption.
Qed.

Lemma in_rows_dropna (n : nat) (df : DataFrame) (e : string) (cells : list cell) :
  In (e, cells) (rows (dropna n df))
  <-> In (e, cells) (rows df) /\ (n <= count_valid cells)%nat.
Proof.
  unfold dropna; simpl. rewrite filter_In; simpl.
  rewrite Nat.leb_le. tauto.
Qed.

(** The rows of the cleaned table: the rows of the pivoted table with at
    least five valid cells and a label that is not an aggregate, filled. *)
Lemma in_rows_clean (wide : DataFrame) (e : string) (cells : list cell) :
  In (e, cells) (rows (clean wide))
  <-> exists cells0,
        In (e, cells0) (rows wide) /\ (5 <= count_valid cells0)%nat
        /\ isin aggregates e = false /\ cells = fill_row cells0.
Proof.
  unfold clean, drop_isin. cbn [rows]. rewrite filter_In, fill_rows. cbn [fst].
  rewrite in_map_iff, negb_true_iff. split.
  - intros [[[e0 c0] [[= <- <-] Hin]] Hagg]. cbn [fst snd] in *.
    apply in_rows_dropna in Hin. exists c0. tauto.
  - intros [c0 (Hin & Hn & Hagg & ->)]. split; [|exact Hagg].
    exists (e, c0). split; [reflexivity|]. apply in_rows_dropna. tauto.
Qed.

Lemma in_rows_rename (d : list (string * string)) (df : DataFrame)
    (e : string) (cells : list cell) :
  In (e, cells) (rows (rename d df))
  <-> exists e0, In (e0, cells) (rows df) /\ e = rename_label d e0.
Proof.
  unfold rename; cbn [rows]. rewrite in_map_iff. split.
  - intros [[e0 c0] [[= <- <-] Hin]]. exists e0. split; [exact Hin|reflexivity].
  - intros [e0 [Hin ->]]. exists (e0, cells). split; [reflexivity|exact Hin].
Qed.

Lemma in_index (df : DataFrame) (e : string) :
  In e (index df) <-> exists cells, In (e, cells) (rows df).
Proof.
  unfold index. rewrite in_map_iff. split.
  - intros [[e0 c0] [<- Hin]]. exists c0. exact Hin.
  - intros [c Hin]. exists (e, c). split; [reflexivity|exact Hin].
Qed.

Lemma row_get_valid (cols : list Z) :
  forall (vals : list cell) (y : Z),
    length vals = length cols ->
    Forall (fun c => notna c = true) vals ->
    In y cols ->
    exists q, row_get cols vals y = Ok (Some q).
Proof.
  induction cols as [|c cs IH]; intros vals y Hlen Hall Hin; [contradiction|].
  destruct vals as [|v vs]; [discriminate|]. simpl.
  inversion Hall as [|? ? Hv Hvs]; subst.
  destruct (Z.eqb_spec c y) as [->|Hne].
  - destruct v as [q|]; [exists q; reflexivity|discriminate].
  - destruct Hin as [->|Hin]; [contradiction|].
    apply IH; [simpl in Hlen; lia|exact Hvs|exact Hin].
Qed.
End LoaderFacts.

(** C5. In the loader a pivoted row with exactly four valid cells is dropped
    entirely (its label is in neither the thresholded nor the cleaned table),
    a row with five or more valid cells is retained by the threshold and,
    unless its label is an aggregate, reaches the loaded table filled and
    under its normalized label; and every row of the loaded table has a valid
    value under every year column. *)
Theorem C5_row_threshold (csv : list Pandas.LongRow) (wide : Pandas.DataFrame) :
  Pandas.pivot csv = Ok wide ->
  (forall e cells,
      In (e, cells) (Pandas.rows wide) -> Pandas.count_valid cells = 4%nat ->
      ~ In e (Pandas.index (Pandas.dropna 5 wide))
      /\ ~ In e (Pandas.index (App.clean wide)))
  /\ (forall e cells,
        In (e, cells) (Pandas.rows wide) -> (5 <= Pandas.count_valid cells)%nat ->
        In (e, cells) (Pandas.rows (Pandas.dropna 5 wide))
        /\ (Pandas.isin App.aggregates e = false ->
            forall df, App.load_migration_data csv = Ok df ->
              In (Pandas.rename_label App.fix_names e, App.fill_row cells)
                 (Pandas.rows df)))
  /\ (forall df, App.load_migration_data csv = Ok df ->
        forall e cells, In (e, cells) (Pandas.rows df) ->
          length cells = length (Pandas.columns df)
          /\ Forall (fun c => Pandas.notna c = true) cells
          /\ forall y, In y (Pandas.columns df) ->
               exists q, App.row_get (Pandas.columns df) cells y = Ok (Some q)).
Proof.
  intros Hp.
  pose proof (pivot_index_NoDup _ _ Hp) as Hnd.
  assert (Hload : forall df, App.load_migration_data csv = Ok df ->
                    df = Pandas.rename App.fix_names (App.clean wide)).
  { intros df H. destruct (load_migration_data_inv _ _ H) as [w [Hw ->]].
    rewrite Hp in Hw. injection Hw as <-. reflexivity. }
  split; [|split].
  - intros e cells Hin Hc.
    assert (Hdrop : ~ In e (Pandas.index (Pandas.dropna 5 wide))).
    { intros H. apply in_index in H. destruct H as [c' H].
      apply in_rows_dropna in H. destruct H as [H Hn].
      rewrite (NoDup_fst_functional _ _ _ _ Hnd Hin H) in Hc. lia. }
    split; [exact Hdrop|].
    intros H. apply in_index in H. destruct H as [c' H].
    apply in_rows_clean in H. destruct H as [c0 (H & Hn & _ & _)].
    rewrite (NoDup_fst_functional _ _ _ _ Hnd Hin H) in Hc. lia.
  - intros e cells Hin Hn. split.
    + apply in_rows_dropna. tauto.
    + intros Hagg df Hdf. rewrite (Hload _ Hdf).
      apply in_rows_rename. exists e. split; [|reflexivity].
      apply in_rows_clean. exists cells. tauto.
  - intros df Hdf e cells Hin. rewrite (Hload _ Hdf) in *.
    apply in_rows_rename in Hin. destruct Hin as [e0 [Hin _]].
    apply in_rows_clean in Hin. destruct Hin as [c0 (Hin & Hn & _ & ->)].
    assert (Hlen : length (App.fill_row c0)
                   = length (Pandas.columns (Pandas.rename App.fix_names (App.clean wide)))).
    { rewrite fill_row_length. cbn. apply (pivot_row_length _ _ Hp _ _ Hin). }
    assert (Hall : Forall (fun c => Pandas.notna c = true) (App.fill_row c0)).
    { apply fill_row_valid. lia. }
    split; [exact Hlen|]. split; [exact Hall|].
    intros y Hy. apply row_get_valid; assumption.
Qed.
(** Witness of C5 on the six-year sample: Tuvalu (four valid cells) is
    gone, Chad (five valid cells) is kept and filled. *)
Lemma C5_row_threshold_witness :
  Pandas.pivot Samples.small_csv = Ok Samples.small_wide
  /\ ~ In "Tuvalu"%string (Pandas.index (App.clean Samples.small_wide))
  /\ In ("Chad"%string,
         [None; Some (7 # 1); Some (9 # 1); Some (11 # 1); Some (13 # 1); Some (15 # 1)])
        (Pandas.rows (Pandas.dropna 5 Samples.small_wide)).
Proof.
  assert (Hp : Pandas.pivot Samples.small_csv = Ok Samples.small_wide)
    by (vm_compute; reflexivity).
  destruct (C5_row_threshold Samples.small_csv Samples.small_wide Hp)
    as [Hdrop [Hkeep _]].
  split; [exact Hp|]. split.
  - apply (Hdrop "Tuvalu"%string
             [Some (1 # 1); Some (2 # 1); Some (3 # 1); Some (4 # 1); None; None]).
    + vm_compute. tauto.
    + vm_compute. reflexivity.
  - apply Hkeep.
    + vm_compute. tauto.
    + vm_compute. lia.
Defined.

(** Witness of C7 on the same sample, which has a World series. *)
Lemma C7_no_aggregate_after_load_witness :
  App.load_migration_data Samples.small_csv = Ok Samples.small_table
  /\ length App.aggregates = 15%nat
  /\ forall name, In name (Pandas.index Samples.small_table) -> ~ In name App.aggregates.
Proof.
  split.
  - vm_compute. reflexivity.
  - apply (C7_no_aggregate_after_load Samples.small_csv). vm_compute. reflexivity.
Defined.

(** ** Uniqueness of the row labels *)

Section LabelFacts.
Import Pandas App.

(** Selecting rows of a table with distinct labels leaves the labels
    distinct. *)
Lemma filter_keeps_labels_distinct {V : Type} (keep : string * V -> bool)
    (table : list (string * V)) :
  NoDup (map fst table) -> NoDup (map fst (filter keep table)).
Proof.
  intros Hnd. induction table as [|row t IH]; simpl; [constructor|].
  simpl in Hnd. apply NoDup_cons_iff in Hnd. destruct Hnd as [Hnotin Hnd].
  destruct (keep row); simpl; [|apply IH, Hnd].
  apply NoDup_cons_iff. split; [|apply IH, Hnd].
  intros Hin. apply Hnotin. apply in_map_iff in Hin.
  destruct Hin as [y [E Hy]]. apply filter_In in Hy.
  apply in_map_iff. exists y. tauto.
Qed.

(** On a duplicate-free list, mapping keeps the list duplicate-free
    exactly when the function is injective on its elements. *)
Lemma NoDup_map_iff_injective {A B : Type} (f : A -> B) (l : list A) :
  NoDup l ->
  (NoDup (map f l) <-> forall a b, In a l -> In b l -> f a = f b -> a = b).
Proof.
  induction l as [|x t IH]; simpl; intros Hnd.
  - split; [intros _ a b []|constructor].
  - inversion Hnd as [|? ? Hnotin Hnd']; subst. split.
    + intros H. inversion H as [|? ? Hf Hm]; subst.
      intros a b [->|Ha] [->|Hb] E.
      * reflexivity.
      * exfalso. apply Hf. rewrite E. apply in_map, Hb.
      * exfalso. apply Hf. rewrite <- E. apply in_map, Ha.
      * apply (proj1 (IH Hnd') Hm); assumption.
    + intros Hinj. constructor.
      * intros Hin. apply in_map_iff in Hin. destruct Hin as [y [E Hy]].
        apply Hnotin. rewrite <- (Hinj y x); auto.
      * apply IH; [exact Hnd'|]. intros a b Ha Hb. apply Hinj; auto.
Qed.

Lemma clean_index_NoDup (wide : DataFrame) :
  NoDup (index wide) -> NoDup (index (clean wide)).
Proof.
  intros H. unfold clean, drop_isin, index. cbn [rows].
  apply filter_keeps_labels_distinct. fold (index (ffill (bfill (interpolate (dropna 5 wide))))).
  unfold ffill, bfill, interpolate. rewrite !index_map_rows.
  unfold index, dropna. cbn [rows]. apply filter_keeps_labels_distinct, H.
Qed.
End LabelFacts.

(** C3, as the code has it.  Before the renaming step the row labels of the
    cleaned table are pairwise distinct; the loaded table has pairwise
    distinct labels exactly when no two labels of the cleaned table have the
    same normalized name. *)
Theorem C3_row_keys (csv : list Pandas.LongRow) (wide : Pandas.DataFrame) :
  Pandas.pivot csv = Ok wide ->
  NoDup (Pandas.index (App.clean wide))
  /\ forall df, App.load_migration_data csv = Ok df ->
       (NoDup (Pandas.index df)
        <-> forall a b,
              In a (Pandas.index (App.clean wide)) ->
              In b (Pandas.index (App.clean wide)) ->
              Pandas.rename_label App.fix_names a = Pandas.rename_label App.fix_names b ->
              a = b).
Proof.
  intros Hp.
  assert (Hnd : NoDup (Pandas.index (App.clean wide))).
  { apply clean_index_NoDup, (pivot_index_NoDup _ _ Hp). }
  split; [exact Hnd|].
  intros df Hdf. destruct (load_migration_data_inv _ _ Hdf) as [w [Hw ->]].
  rewrite Hp in Hw. injection Hw as <-.
  rewrite index_rename. apply NoDup_map_iff_injective, Hnd.
Qed.

Lemma C3_row_keys_witness :
  Pandas.pivot Samples.small_csv = Ok Samples.small_wide
  /\ NoDup (Pandas.index (App.clean Samples.small_wide)).
Proof.
  assert (Hp : Pandas.pivot Samples.small_csv = Ok Samples.small_wide)
    by (vm_compute; reflexivity).
  split; [exact Hp|].
  exact (proj1 (C3_row_keys Samples.small_csv Samples.small_wide Hp)).
Defined.

(** C3 as stated fails: a source table without duplicate (name, year) pairs
    that has a series for Sudan and one for South Sudan loads into a table
    with two rows labelled Sudan. *)
Lemma C3_counterexample :
  Pandas.has_duplicates Samples.two_sudans_csv = false
  /\ exists df,
       App.load_migration_data Samples.two_sudans_csv = Ok df
       /\ Pandas.index df = ["Sudan"; "Sudan"]%string
       /\ ~ NoDup (Pandas.index df).
Proof.
  split; [vm_compute; reflexivity|].
  eexists. split; [vm_compute; reflexivity|].
  split; [reflexivity|].
  cbn. intros H. inversion H as [|? ? Hnotin _]. apply Hnotin. left. reflexivity.
Qed.

(** ** The merge *)

(** C6. The merge is an inner join on the name: a name is among the names of
    the merged table if and only if it is both a row label of the (loaded,
    normalized) migration table and a name of the geometry table; a name on
    one side only yields no row and no error. *)
Theorem C6_merge_inner_join (world : list App.WorldRow) (df_wide : Pandas.DataFrame)
    (name : string) :
  In name (App.entities (App.merge world df_wide))
  <-> In name (Pandas.index df_wide) /\ In name (map App.w_Entity world).
Proof.
  unfold App.entities, App.merge. cbn [App.m_rows].
  rewrite in_map_iff. split.
  - intros [m [<- Hm]]. apply in_flat_map in Hm. destruct Hm as [w [Hw Hm]].
    apply in_map_iff in Hm. destruct Hm as [r [<- Hr]]. cbn [App.m_Entity].
    apply filter_In in Hr. destruct Hr as [Hr E]. apply String.eqb_eq in E.
    split.
    + rewrite E. apply in_map, Hr.
    + apply in_map, Hw.
  - intros [Hd Hw]. apply in_map_iff in Hd. destruct Hd as [r [<- Hr]].
    apply in_map_iff in Hw. destruct Hw as [w [E Hw]].
    exists (App.mkMergedRow (App.w_Entity w) (App.w_geometry w) (snd r)
              (App.centroid_x (App.w_geometry w)) (App.centroid_y (App.w_geometry w))).
    split; [exact E|].
    apply in_flat_map. exists w. split; [exact Hw|].
    apply in_map_iff. exists r. split; [reflexivity|].
    apply filter_In. split; [exact Hr|]. apply String.eqb_eq. exact E.
Qed.

(** ** The globe flows *)

Section FlowFacts.
Import Pandas App.

Lemma row_get_total (cols : list Z) :
  forall (vals : list cell) (y : Z),
    length vals = length cols -> In y cols ->
    exists v, row_get cols vals y = Ok v.
Proof.
  induction cols as [|c cs IH]; intros vals y Hlen Hin; [contradiction|].
  destruct vals as [|v vs]; [discriminate|]. simpl.
  destruct (Z.eqb_spec c y) as [->|Hne].
  - exists v. reflexivity.
  - destruct Hin as [->|Hin]; [contradiction|].
    apply IH; [simpl in Hlen; lia|exact Hin].
Qed.

Lemma Forall2_strengthen {A B : Type} (P : A -> Prop) (R R' : A -> B -> Prop)
    (l : list A) (l' : list B) :
  Forall P l -> Forall2 R l l' ->
  (forall a b, P a -> R a b -> R' a b) ->
  Forall2 R' l l'.
Proof.
  intros HP HR Himp. induction HR as [|a b t t' Hab HR' IH]; constructor.
  - apply Himp; [inversion HP; assumption|exact Hab].
  - apply IH. inversion HP; assumption.
Qed.

Lemma dest_row_found (merged : Merged) (D : string) :
  In D (entities merged) ->
  exists dest, dest_row merged D = Ok dest
               /\ m_Entity dest = D /\ In dest (m_rows merged).
Proof.
  unfold entities, dest_row. intros H.
  apply in_map_iff in H. destruct H as [r [E Hr]].
  destruct (filter (fun r0 => String.eqb (m_Entity r0) D) (m_rows merged))
    as [|d t] eqn:F.
  - exfalso.
    assert (Hin : In r (filter (fun r0 => String.eqb (m_Entity r0) D) (m_rows merged))).
    { apply filter_In. split; [exact Hr|]. apply String.eqb_eq, E. }
    rewrite F in Hin. exact Hin.
  - exists d. split; [reflexivity|].
    assert (Hin : In d (filter (fun r0 => String.eqb (m_Entity r0) D) (m_rows merged))).
    { rewrite F. left. reflexivity. }
    apply filter_In in Hin. destruct Hin as [Hin Hd].
    apply String.eqb_eq in Hd. tauto.
Qed.

(** A cell read by its year sits at the first position of the year among
    the columns. *)
Lemma row_get_position (cols : list Z) (y : Z) :
  forall vals v,
    row_get cols vals y = Ok v ->
    exists i, nth_error cols i = Some y
              /\ (forall j, (j < i)%nat -> nth_error cols j <> Some y)
              /\ nth_error vals i = Some v.
Proof.
  induction cols as [|c cs IH]; intros vals v H; [destruct vals; discriminate|].
  destruct vals as [|v0 vs]; [discriminate|]. simpl in H.
  destruct (Z.eqb_spec c y) as [->|Hne].
  - injection H as ->. exists 0%nat. split; [reflexivity|]. split; [|reflexivity].
    intros j Hj. lia.
  - destruct (IH vs v H) as (i & Hc & Hfirst & Hv).
    exists (S i). split; [exact Hc|]. split; [|exact Hv].
    intros [|j] Hj; simpl.
    + intros [= E]. contradiction.
    + apply Hfirst. lia.
Qed.

(** The destination's row is the first row of that name. *)
Lemma dest_row_first (merged : Merged) (D : string) (dest : MergedRow) :
  dest_row merged D = Ok dest ->
  exists before after,
    m_rows merged = before ++ dest :: after
    /\ forall r, In r before -> m_Entity r <> D.
Proof.
  unfold dest_row. induction (m_rows merged) as [|r t IH]; simpl; [discriminate|].
  destruct (String.eqb_spec (m_Entity r) D) as [E|Hne].
  - intros [= <-]. exists [], t. split; [reflexivity|]. intros r0 [].
  - intros H. destruct (IH H) as (before & after & E & Hb).
    exists (r :: before), after. rewrite E. split; [reflexivity|].
    intros r0 [<-|H0]; [exact Hne|apply Hb, H0].
Qed.

(** The loop appends, to the records it starts with, one record per row
    whose name differs from the destination, in the order of the rows. *)
Lemma flow_loop_spec (cols : list Z) (D : string) (dest : MergedRow) (year : Z)
    (l : list MergedRow) :
  (forall r, In r l -> length (m_values r) = length cols) ->
  In year cols ->
  forall acc, exists fl,
    flow_loop cols l D dest year acc = Ok (acc ++ fl)
    /\ Forall2
         (fun r f =>
            row_get cols (m_values r) year = Ok (migrants f)
            /\ from_lon f = centroid_lon r /\ from_lat f = centroid_lat r
            /\ to_lon f = centroid_lon dest /\ to_lat f = centroid_lat dest)
         (filter (fun r => negb (String.eqb (m_Entity r) D)) l) fl.
Proof.
  intros Hwf Hy. induction l as [|r t IH]; intros acc; simpl.
  - exists []. rewrite app_nil_r. split; [reflexivity|constructor].
  - assert (Hwf' : forall r0, In r0 t -> length (m_values r0) = length cols).
    { intros r0 H0. apply Hwf. right. exact H0. }
    destruct (negb (String.eqb (m_Entity r) D)).
    + destruct (row_get_total cols (m_values r) year) as [v Ev];
        [apply Hwf; left; reflexivity|exact Hy|].
      rewrite Ev. cbn [bind].
      destruct (IH Hwf' (acc ++ [mkFlow (centroid_lon r) (centroid_lat r)
                                   (centroid_lon dest) (centroid_lat dest) v]))
        as [fl [E HF]].
      eexists. split.
      * rewrite E, <- app_assoc. reflexivity.
      * constructor; [|exact HF]. cbn. tauto.
    + apply IH, Hwf'.
Qed.
End FlowFacts.

(** C4. For a destination D of the merged table and a year that is one of its
    columns, the globe-flow derivation succeeds and yields exactly one record
    per row whose name differs from D, in row order, carrying that row's
    centroid as source point, the centroid of D's row (the first row named D)
    as target point and, as magnitude, the row's cell at the position the
    year has among the columns; no record comes from a row named D; and when
    every row is named D the flow list is empty, without error. *)
Theorem C4_globe_flows (merged : App.Merged) (D : string) (year : Z) :
  In D (App.entities merged) ->
  In year (App.m_columns merged) ->
  (forall r, In r (App.m_rows merged) ->
     length (App.m_values r) = length (App.m_columns merged)) ->
  exists dest flows,
    App.dest_row merged D = Ok dest
    /\ App.m_Entity dest = D
    /\ (exists before after,
          App.m_rows merged = before ++ dest :: after
          /\ forall r, In r before -> App.m_Entity r <> D)
    /\ App.globe_flows merged D year = Ok flows
    /\ Forall2
         (fun r f =>
            App.m_Entity r <> D
            /\ (exists i,
                  nth_error (App.m_columns merged) i = Some year
                  /\ (forall j, (j < i)%nat ->
                        nth_error (App.m_columns merged) j <> Some year)
                  /\ nth_error (App.m_values r) i = Some (App.migrants f))
            /\ App.from_lon f = App.centroid_lon r
            /\ App.from_lat f = App.centroid_lat r
            /\ App.to_lon f = App.centroid_lon dest
            /\ App.to_lat f = App.centroid_lat dest)
         (filter (fun r => negb (String.eqb (App.m_Entity r) D)) (App.m_rows merged))
         flows
    /\ ((forall r, In r (App.m_rows merged) -> App.m_Entity r = D) -> flows = []).
Proof.
  intros HD Hy Hwf.
  destruct (dest_row_found merged D HD) as [dest (Ed & En & _)].
  destruct (flow_loop_spec (App.m_columns merged) D dest year (App.m_rows merged)
              Hwf Hy []) as [fl [E HF]].
  exists dest, fl. split; [exact Ed|]. split; [exact En|].
  split; [apply (dest_row_first _ _ _ Ed)|]. split.
  { unfold App.globe_flows. rewrite Ed. cbn [bind]. exact E. }
  split.
  - assert (Hneq : Forall (fun r => App.m_Entity r <> D)
                     (filter (fun r => negb (String.eqb (App.m_Entity r) D))
                        (App.m_rows merged))).
    { apply Forall_forall. intros r Hr. apply filter_In in Hr.
      destruct Hr as [_ Hb]. apply negb_true_iff, String.eqb_neq in Hb. exact Hb. }
    eapply Forall2_strengthen; [exact Hneq|exact HF|].
    cbv beta. intros r f Hr (Hv & H1 & H2 & H3 & H4).
    split; [exact Hr|]. split; [apply (row_get_position _ _ _ _ Hv)|tauto].
  - intros Hall.
    assert (Hnil : filter (fun r => negb (String.eqb (App.m_Entity r) D))
                     (App.m_rows merged) = []).
    { clear -Hall. induction (App.m_rows merged) as [|r t IH]; [reflexivity|]. simpl.
      rewrite (Hall r (or_introl eq_refl)), String.eqb_refl. simpl.
      apply IH. intros r0 H0. apply Hall. right. exact H0. }
    rewrite Hnil in HF. inversion HF. reflexivity.
Qed.

Lemma C4_globe_flows_witness :
  exists dest flows,
    App.dest_row Samples.small_merged "Chad" = Ok dest
    /\ App.globe_flows Samples.small_merged "Chad" 2015 = Ok flows
    /\ length flows = 2%nat.
Proof.
  destruct (C4_globe_flows Samples.small_merged "Chad" 2015)
    as [dest [flows (Ed & _ & _ & Ef & HF & _)]].
  - vm_compute. tauto.
  - vm_compute. tauto.
  - intros r Hr. vm_compute in Hr.
    destruct Hr as [<-|[<-|[<-|[]]]]; reflexivity.
  - exists dest, flows. split; [exact Ed|]. split; [exact Ef|].
    apply Forall2_length in HF. rewrite <- HF. reflexivity.
Defined.

(** A destination that is not a name of the merged table makes the lookup of
    its row raise. *)
Lemma globe_flows_absent_dest (merged : App.Merged) (D : string) (year : Z) :
  ~ In D (App.entities merged) ->
  App.globe_flows merged D year = Raise IndexError.
Proof.
  intros H. unfold App.globe_flows, App.dest_row.
  destruct (filter (fun r => String.eqb (App.m_Entity r) D) (App.m_rows merged))
    as [|d t] eqn:F; [reflexivity|].
  exfalso. apply H.
  assert (Hin : In d (filter (fun r => String.eqb (App.m_Entity r) D)
                        (App.m_rows merged))) by (rewrite F; left; reflexivity).
  apply filter_In in Hin. destruct Hin as [Hin E]. apply String.eqb_eq in E.
  unfold App.entities. rewrite <- E. apply in_map, Hin.
Qed.

(** ** The destination selector *)

Section SelectorFacts.
Import Pandas App.

Lemma country_options_In (merged : Merged) (n : string) :
  In n (country_options merged) <-> In n (entities merged).
Proof.
  unfold country_options.
  rewrite sort_by_In, (unique_In String.eqb String.eqb_eq). tauto.
Qed.

Lemma country_options_NoDup (merged : Merged) : NoDup (country_options merged).
Proof.
  unfold country_options. apply sort_by_NoDup, unique_NoDup, String.eqb_eq.
Qed.

Lemma country_options_sorted (merged : Merged) :
  Sorted (fun a b => String.leb a b = true) (country_options merged).
Proof.
  unfold country_options. apply sort_by_sorted, String.leb_total.
Qed.

Lemma string_leb_refl (s : string) : String.leb s s = true.
Proof. destruct (String.leb_total s s); assumption. Qed.
End SelectorFacts.

(** C10. When the merged table is not empty, the destination selected by
    default is the first element of the sorted, de-duplicated list of its
    names, and that element is the smallest name in the order of the strings:
    it is a name of the table and it is below or equal to every name of the
    table. *)
Theorem C10_default_destination (merged : App.Merged) :
  App.m_rows merged <> [] ->
  exists d rest,
    App.country_options merged = d :: rest
    /\ App.default_dest merged = Some d
    /\ NoDup (App.country_options merged)
    /\ Sorted (fun a b => String.leb a b = true) (App.country_options merged)
    /\ In d (App.entities merged)
    /\ forall n, In n (App.entities merged) -> String.leb d n = true.
Proof.
  intros Hne.
  pose proof (country_options_In merged) as HIn.
  pose proof (country_options_NoDup merged) as Hnd.
  pose proof (country_options_sorted merged) as Hs.
  unfold App.default_dest.
  destruct (App.country_options merged) as [|d rest].
  - exfalso. destruct (App.m_rows merged) as [|r t] eqn:E; [apply Hne; reflexivity|].
    apply (proj2 (HIn (App.m_Entity r))).
    unfold App.entities. rewrite E. left. reflexivity.
  - exists d, rest. repeat (split; [first [reflexivity|assumption]|]).
    split.
    + apply HIn. left. reflexivity.
    + intros n Hn. apply HIn in Hn. destruct Hn as [<-|Hn].
      * apply string_leb_refl.
      * pose proof (sorted_head_le String.leb string_leb_trans d rest Hs) as Hall.
        rewrite Forall_forall in Hall. apply Hall, Hn.
Qed.

Lemma C10_default_destination_witness :
  exists d rest,
    App.country_options Samples.small_merged = d :: rest
    /\ App.default_dest Samples.small_merged = Some d
    /\ d = "Chad"%string.
Proof.
  destruct (C10_default_destination Samples.small_merged)
    as [d [rest (E & Ed & _)]].
  - vm_compute. discriminate.
  - exists d, rest. split; [exact E|]. split; [exact Ed|].
    vm_compute in Ed. injection Ed as <-. reflexivity.
Defined.

(** ** Reruns of the script *)

Section RerunFacts.
Import Pandas App.

Lemma empty_cache_agrees (fs : Files) : cache_agrees fs empty_cache.
Proof. split; intros x H; discriminate H. Qed.

(** On a cache loaded from the same files, a run of the script returns what
    an uncached run returns and leaves such a cache. *)
Lemma script_spec (fs : Files) (sel : Selection) (c : Cache) :
  cache_agrees fs c ->
  fst (script fs sel c) = uncached_run fs sel
  /\ cache_agrees fs (snd (script fs sel c)).
Proof.
  intros [Hm Hw].
  destruct c as [[df|] [w|]]; cbn in Hm, Hw;
    unfold script, uncached_run, cached_load_migration_data,
      cached_load_geometries, cache_agrees;
    cbn [cached_migration cached_world].
  - split; [|split; [exact Hm|exact Hw]].
    rewrite (Hm df eq_refl), <- (Hw w eq_refl). reflexivity.
  - split.
    + rewrite (Hm df eq_refl). reflexivity.
    + cbn. split; [exact Hm|].
      intros w E. injection E as <-. reflexivity.
  - destruct (load_migration_data (migration_csv fs)) as [df|e]; cbn.
    + split; [rewrite <- (Hw w eq_refl); reflexivity|].
      split; [|exact Hw].
      intros df' E. injection E as <-. reflexivity.
    + split; [reflexivity|]. split; [exact Hm|exact Hw].
  - destruct (load_migration_data (migration_csv fs)) as [df|e]; cbn.
    + split; [reflexivity|]. split.
      * intros df' E. injection E as <-. reflexivity.
      * intros w E. injection E as <-. reflexivity.
    + split; [reflexivity|]. split; [exact Hm|exact Hw].
Qed.

Lemma session_spec (fs : Files) (sels : list Selection) :
  forall c, cache_agrees fs c ->
    session fs sels c = map (uncached_run fs) sels.
Proof.
  induction sels as [|sel t IH]; intros c Hc; simpl; [reflexivity|].
  destruct (script_spec fs sel c Hc) as [E Hc'].
  destruct (script fs sel c) as [out c']. cbn [fst snd] in *.
  rewrite E, (IH c' Hc'). reflexivity.
Qed.
End RerunFacts.

(** C9, as the code has it.  Two runs of the script on the same input tables
    with the same (year, destination) selection return the same result (the
    same choropleth values, flow records and Sankey data, or the same
    exception), namely that of a run without any cache, provided each run
    starts on a cache that is empty or holds only what was loaded from these
    same tables; such a run leaves such a cache, so this covers every run of
    a process that has only ever seen these tables. *)
Theorem C9_deterministic_on_agreeing_cache (fs : App.Files) (sel : App.Selection)
    (c1 c2 : App.Cache) :
  App.cache_agrees fs c1 ->
  App.cache_agrees fs c2 ->
  fst (App.script fs sel c1) = fst (App.script fs sel c2)
  /\ fst (App.script fs sel c1) = App.uncached_run fs sel
  /\ App.cache_agrees fs (snd (App.script fs sel c1))
  /\ forall sels, App.session fs sels c1 = map (App.uncached_run fs) sels.
Proof.
  intros H1 H2.
  destruct (script_spec fs sel c1 H1) as [E1 A1].
  destruct (script_spec fs sel c2 H2) as [E2 _].
  split; [rewrite E1, E2; reflexivity|]. split; [exact E1|]. split; [exact A1|].
  intros sels. apply session_spec, H1.
Qed.

Lemma C9_deterministic_on_agreeing_cache_witness :
  fst (App.script Samples.small_files (App.mkSelection (Some 2000%Z) (Some "Peru"%string))
         App.empty_cache)
  = fst (App.script Samples.small_files (App.mkSelection (Some 2000%Z) (Some "Peru"%string))
           (snd (App.script Samples.small_files (App.mkSelection None None)
                   App.empty_cache))).
Proof.
  apply (C9_deterministic_on_agreeing_cache Samples.small_files
           (App.mkSelection (Some 2000%Z) (Some "Peru"%string))
           App.empty_cache
           (snd (App.script Samples.small_files (App.mkSelection None None)
                   App.empty_cache))).
  - split; intros x H; discriminate H.
  - split; intros x H; vm_compute in H; injection H as <-; vm_compute; reflexivity.
Defined.

(** C9 as stated fails: the cache is not keyed by the input tables.  With the
    same tables ([later_files]) and the same selection, a run on an empty
    cache and a run that follows a run on other tables ([small_files]) return
    different results; the second returns the data of the tables loaded
    first. *)
Lemma C9_counterexample :
  fst (App.script Samples.later_files (App.mkSelection None None) App.empty_cache)
  <> fst (App.script Samples.later_files (App.mkSelection None None)
            (snd (App.script Samples.small_files (App.mkSelection None None)
                    App.empty_cache)))
  /\ fst (App.script Samples.later_files (App.mkSelection None None)
            (snd (App.script Samples.small_files (App.mkSelection None None)
                    App.empty_cache)))
     = App.uncached_run Samples.small_files (App.mkSelection None None).
Proof.
  split.
  - intros H. vm_compute in H. discriminate H.
  - vm_compute. reflexivity.
Qed.

(** ** The Sankey derivation *)

Section SankeyFacts.
Import Pandas App.

Lemma source_rows_spec (cols : list Z) (year : Z) (l : list MergedRow) :
  (forall r, In r l -> length (m_values r) = length cols) ->
  In year cols ->
  exists sources,
    source_rows cols l year = Ok sources
    /\ Forall2 (fun r s => fst s = m_Entity r
                           /\ row_get cols (m_values r) year = Ok (snd s))
         l sources.
Proof.
  intros Hwf Hy. induction l as [|r t IH]; simpl.
  - exists []. split; [reflexivity|constructor].
  - destruct (row_get_total cols (m_values r) year) as [v Ev];
      [apply Hwf; left; reflexivity|exact Hy|].
    destruct IH as [rest [Er HF]].
    { intros r0 H0. apply Hwf. right. exact H0. }
    rewrite Ev, Er. cbn [bind]. eexists. split; [reflexivity|].
    constructor; [cbn; tauto|exact HF].
Qed.

Lemma nlargest_length (n : nat) (l : list SourceRow) :
  length (nlargest n l) = Nat.min n (length l).
Proof. unfold nlargest. rewrite length_firstn, sort_by_length. reflexivity. Qed.

Lemma nlargest_In (n : nat) (l : list SourceRow) (s : SourceRow) :
  In s (nlargest n l) -> In s l.
Proof.
  unfold nlargest. intros H. apply (sort_by_In (fun a b => cell_geb (snd a) (snd b))).
  rewrite <- (firstn_skipn n). apply in_or_app. left. exact H.
Qed.

Lemma cell_geb_total (a b : cell) : cell_geb a b = true \/ cell_geb b a = true.
Proof.
  destruct a as [x|], b as [y|]; simpl; auto.
  rewrite !Qle_bool_iff. destruct (Qlt_le_dec x y) as [H|H].
  - right. apply Qlt_le_weak, H.
  - left. exact H.
Qed.

Lemma cell_geb_trans (a b c : cell) :
  cell_geb a b = true -> cell_geb b c = true -> cell_geb a c = true.
Proof.
  destruct a as [x|], b as [y|], c as [z|]; simpl; try reflexivity; try discriminate.
  rewrite !Qle_bool_iff. intros H1 H2. apply (Qle_trans _ _ _ H2 H1).
Qed.

Lemma Sorted_firstn {A : Type} (R : A -> A -> Prop) (l : list A) :
  Sorted R l -> forall n, Sorted R (firstn n l).
Proof.
  induction 1 as [|x t Hs IH Hhd]; intros n.
  - rewrite firstn_nil. constructor.
  - destruct n as [|n]; simpl; [constructor|].
    constructor; [apply IH|].
    destruct Hhd as [|y t' Hxy]; [rewrite firstn_nil; constructor|].
    destruct n; simpl; constructor. exact Hxy.
Qed.

(** The selected rows come largest value first. *)
Lemma nlargest_sorted (n : nat) (l : list SourceRow) :
  Sorted (fun a b => cell_geb (snd a) (snd b) = true) (nlargest n l).
Proof.
  unfold nlargest. apply Sorted_firstn.
  apply (sort_by_sorted (fun a b : SourceRow => cell_geb (snd a) (snd b))).
  intros x y. apply cell_geb_total.
Qed.

Lemma py_index_app_last (l : list string) (x : string) :
  ~ In x l -> py_index x (l ++ [x]) = Ok (length l).
Proof.
  induction l as [|y t IH]; simpl; intros H.
  - rewrite String.eqb_refl. reflexivity.
  - destruct (String.eqb_spec y x) as [->|Hne]; [exfalso; apply H; left; reflexivity|].
    rewrite IH; [reflexivity|]. intros Hin. apply H. right. exact Hin.
Qed.

Lemma py_index_found (l : list string) (x : string) :
  In x l -> exists i, py_index x l = Ok i /\ nth_error l i = Some x.
Proof.
  induction l as [|y t IH]; simpl; [contradiction|].
  intros H. destruct (String.eqb_spec y x) as [->|Hne].
  - exists 0%nat. split; reflexivity.
  - destruct H as [->|H]; [contradiction|].
    destruct (IH H) as [i [E Hn]]. rewrite E. cbn [bind].
    exists (S i). split; [reflexivity|exact Hn].
Qed.

(** In a list without repetition, [index] returns the position itself. *)
Lemma py_index_NoDup (l rest : list string) :
  NoDup l ->
  forall i x, nth_error l i = Some x -> py_index x (l ++ rest) = Ok i.
Proof.
  induction 1 as [|y t Hnotin Hnd IH]; intros i x Hn.
  - destruct i; discriminate.
  - destruct i as [|i]; simpl in *.
    + injection Hn as ->. rewrite String.eqb_refl. reflexivity.
    + destruct (String.eqb_spec y x) as [->|Hne].
      * exfalso. apply Hnotin. eapply nth_error_In, Hn.
      * rewrite (IH i x Hn). reflexivity.
Qed.

(** The loop extends the three accumulators by one entry per selected row:
    the position of the row's label, the fixed target, the row's value. *)
Lemma sankey_loop_spec (lbls : list string) (target : nat) (top : list SourceRow) :
  (forall s, In s top -> In (fst s) lbls) ->
  forall src tgt val, exists idx,
    sankey_loop lbls target top src tgt val
    = Ok (src ++ idx, tgt ++ repeat target (length top), val ++ map snd top)
    /\ Forall2 (fun s i => py_index (fst s) lbls = Ok i) top idx.
Proof.
  induction top as [|s t IH]; intros Hin src tgt val; simpl.
  - exists []. rewrite !app_nil_r. split; [reflexivity|constructor].
  - destruct (py_index_found lbls (fst s)) as [i [E _]];
      [apply Hin; left; reflexivity|].
    rewrite E. cbn [bind].
    destruct (IH (fun s0 H0 => Hin s0 (or_intror H0))
                (src ++ [i]) (tgt ++ [target]) (val ++ [snd s])) as [idx [El HF]].
    exists (i :: idx). split.
    + rewrite El, <- !app_assoc. reflexivity.
    + constructor; assumption.
Qed.
End SankeyFacts.

Section SankeyShape.
Import Pandas App.

Lemma Forall2_In_r {A B : Type} (R : A -> B -> Prop) (l : list A) (l' : list B) (b : B) :
  Forall2 R l l' -> In b l' -> exists a, In a l /\ R a b.
Proof.
  induction 1 as [|a b' t t' Hab HF IH]; simpl; [contradiction|].
  intros [->|Hb].
  - exists a. split; [left; reflexivity|exact Hab].
  - destruct (IH Hb) as [a' [Ha' HR]]. exists a'. split; [right; exact Ha'|exact HR].
Qed.

Lemma Forall2_positions {A : Type} (g : A -> result nat) (top : list A) (idx : list nat) :
  Forall2 (fun s i => g s = Ok i) top idx ->
  forall off,
    (forall k s, nth_error top k = Some s -> g s = Ok (off + k)%nat) ->
    idx = seq off (length top).
Proof.
  induction 1 as [|s i t t' Hs HF IH]; intros off Hpos; simpl; [reflexivity|].
  f_equal.
  - pose proof (Hpos 0%nat s eq_refl) as H0. rewrite Hs in H0.
    injection H0 as ->. apply Nat.add_0_r.
  - apply IH. intros k s' Hk. rewrite (Hpos (S k) s' Hk). f_equal. lia.
Qed.

Lemma has_column_true (cols : list Z) (y : Z) : In y cols -> has_column cols y = true.
Proof.
  intros H. unfold has_column. apply existsb_exists.
  exists y. split; [exact H|apply Z.eqb_refl].
Qed.

(** What the Sankey derivation returns on a well-formed table, for a year
    that is a column: the labels are the selected sources followed by the
    destination, every edge has target [N], the destination sits at
    position min(N, number of eligible rows), and the source indices are
    0, 1, 2, ... when the selected labels are pairwise distinct. *)
Lemma sankey_shape (merged : Merged) (D : string) (year : Z) :
  In year (m_columns merged) ->
  (forall r, In r (m_rows merged) -> length (m_values r) = length (m_columns merged)) ->
  exists sources sk,
    sources_df merged D year = Ok sources
    /\ Forall2 (fun r s => fst s = m_Entity r
                           /\ row_get (m_columns merged) (m_values r) year = Ok (snd s))
         (filter (fun r => negb (String.eqb (m_Entity r) D)) (m_rows merged)) sources
    /\ sankey merged D year = Ok sk
    /\ labels sk = map fst (nlargest N sources) ++ [D]
    /\ sankey_target sk = repeat N (Nat.min N (length sources))
    /\ sankey_value sk = map snd (nlargest N sources)
    /\ Forall2 (fun s i => py_index (fst s) (labels sk) = Ok i)
         (nlargest N sources) (sankey_source sk)
    /\ py_index D (labels sk) = Ok (Nat.min N (length sources))
    /\ (NoDup (map fst (nlargest N sources)) ->
        sankey_source sk = seq 0 (Nat.min N (length sources))).
Proof.
  intros Hy Hwf.
  destruct (source_rows_spec (m_columns merged) year
              (filter (fun r => negb (String.eqb (m_Entity r) D)) (m_rows merged)))
    as [sources [Es HF]].
  { intros r Hr. apply filter_In in Hr. apply Hwf. tauto. }
  { exact Hy. }
  assert (Esd : sources_df merged D year = Ok sources).
  { unfold sources_df. rewrite (has_column_true _ _ Hy). exact Es. }
  assert (HnotD : ~ In D (map fst (nlargest N sources))).
  { intros H. apply in_map_iff in H. destruct H as [s [E Hs]].
    apply nlargest_In in Hs.
    destruct (Forall2_In_r _ _ _ _ HF Hs) as [r [Hr [Er _]]].
    apply filter_In in Hr. destruct Hr as [_ Hb].
    apply negb_true_iff, String.eqb_neq in Hb. congruence. }
  destruct (sankey_loop_spec (map fst (nlargest N sources) ++ [D]) N
              (nlargest N sources)) with (src := @nil nat) (tgt := @nil nat)
              (val := @nil cell) as [idx [El HI]].
  { intros s Hs. apply in_or_app. left. apply in_map, Hs. }
  exists sources, (mkSankey (map fst (nlargest N sources) ++ [D]) idx
                     (repeat N (length (nlargest N sources)))
                     (map snd (nlargest N sources))).
  cbn [labels sankey_target sankey_value sankey_source].
  rewrite <- (nlargest_length N sources).
  split; [exact Esd|]. split; [exact HF|]. split.
  { unfold sankey. rewrite Esd. cbn [bind]. rewrite El. reflexivity. }
  split; [reflexivity|]. split; [reflexivity|]. split; [reflexivity|].
  split; [exact HI|]. split.
  - etransitivity; [apply py_index_app_last, HnotD|].
    f_equal. apply length_map.
  - intros Hnd. apply (Forall2_positions _ _ _ HI). intros k s Hk. simpl.
    apply py_index_NoDup; [exact Hnd|].
    rewrite nth_error_map, Hk. reflexivity.
Qed.
End SankeyShape.

(** C1 at a table with fewer than ten eligible sources.  On the three-row
    sample with destination Chad and year 2015 the derivation returns the
    labels [Lao PDR, Peru, Chad] (both eligible sources, largest first, then
    the destination), the source indices [0, 1] and the values [60, 30], but
    the target index of both edges is 10, while the destination label is at
    position 2 and the label list has no position 10. *)
Theorem C1_sankey_target_out_of_range :
  App.sankey Samples.small_merged "Chad" 2015
  = Ok (App.mkSankey ["Lao PDR"; "Peru"; "Chad"]%string [0; 1]%nat [10; 10]%nat
          [Some (60 # 1); Some (30 # 1)])
  /\ App.py_index "Chad" ["Lao PDR"; "Peru"; "Chad"]%string = Ok 2%nat
  /\ nth_error ["Lao PDR"; "Peru"; "Chad"]%string 10 = None.
Proof.
  split; [vm_compute; reflexivity|]. split; reflexivity.
Qed.

(** With two merged rows of one name among the selected sources, both edges
    leave the first of the two equal labels: the second edge's source index
    is 0, not 1. *)
Lemma sankey_repeated_label :
  App.entities Samples.sudans_merged = ["Sudan"; "Sudan"; "Chad"]%string
  /\ App.sankey Samples.sudans_merged "Chad" 2010
     = Ok (App.mkSankey ["Sudan"; "Sudan"; "Chad"]%string [0; 0]%nat [10; 10]%nat
             [Some (15 # 1); Some (5 # 1)]).
Proof.
  split; vm_compute; reflexivity.
Qed.

(** ** The merged table of the pipeline is well formed *)

(** Every row of the table merged from a loaded migration table has one cell
    per year column, and the year columns are those of the pivot. *)
Lemma pipeline_merged_well_formed (csv : list Pandas.LongRow) (df : Pandas.DataFrame)
    (world : list App.WorldRow) :
  App.load_migration_data csv = Ok df ->
  forall r, In r (App.m_rows (App.merge world df)) ->
    length (App.m_values r) = length (App.m_columns (App.merge world df))
    /\ Forall (fun c => Pandas.notna c = true) (App.m_values r).
Proof.
  intros Hdf r Hr.
  destruct (load_migration_data_inv _ _ Hdf) as [wide [Hp ->]].
  unfold App.merge in Hr. cbn [App.m_rows] in Hr.
  apply in_flat_map in Hr. destruct Hr as [w [_ Hr]].
  apply in_map_iff in Hr. destruct Hr as [[e cells] [<- Hin]].
  apply filter_In in Hin. destruct Hin as [Hin _].
  apply in_rows_rename in Hin. destruct Hin as [e0 [Hin _]].
  apply in_rows_clean in Hin. destruct Hin as [c0 (Hin & Hn & _ & ->)].
  cbn. split.
  - rewrite fill_row_length. apply (pivot_row_length _ _ Hp _ _ Hin).
  - apply fill_row_valid. lia.
Qed.


(** * Further properties of the code *)

(** ** The pivot *)

Section PivotFacts.
Import Pandas App.

Lemma has_duplicates_true_iff (l : list LongRow) :
  has_duplicates l = true
  <-> exists l1 a l2 b l3,
        l = l1 ++ a :: l2 ++ b :: l3
        /\ Entity a = Entity b /\ Year a = Year b.
Proof.
  induction l as [|r t IH]; simpl.
  - split; [discriminate|].
    intros (l1 & a & l2 & b & l3 & E & _). destruct l1; discriminate.
  - rewrite orb_true_iff, IH, existsb_exists. split.
    + intros [[b [Hb Hk]]|(l1 & a & l2 & b & l3 & E & Hk)].
      * apply in_split in Hb. destruct Hb as [l2 [l3 ->]].
        unfold same_key in Hk. apply andb_true_iff in Hk.
        destruct Hk as [He Hy]. apply String.eqb_eq in He. apply Z.eqb_eq in Hy.
        exists [], r, l2, b, l3. simpl. tauto.
      * exists (r :: l1), a, l2, b, l3. rewrite E. simpl. tauto.
    + intros (l1 & a & l2 & b & l3 & E & He & Hy).
      destruct l1 as [|r' l1]; simpl in E; injection E as -> ->.
      * left. exists b. split; [apply in_or_app; right; left; reflexivity|].
        unfold same_key. rewrite He, Hy, String.eqb_refl, Z.eqb_refl. reflexivity.
      * right. exists l1, a, l2, b, l3. tauto.
Qed.

(** Without two records of one key, looking a record's key up gives the
    record's value. *)
Lemma lookup_record (l : list LongRow) (r : LongRow) :
  has_duplicates l = false -> In r l -> lookup l (Entity r) (Year r) = Total r.
Proof.
  unfold lookup. induction l as [|a t IH]; simpl; [contradiction|].
  intros Hd Hin. apply orb_false_iff in Hd. destruct Hd as [Ha Ht].
  destruct (String.eqb (Entity a) (Entity r) && Z.eqb (Year a) (Year r)) eqn:K.
  - destruct Hin as [->|Hin]; [reflexivity|]. exfalso.
    assert (existsb (same_key a) t = true); [|congruence].
    apply existsb_exists. exists r. split; [exact Hin|exact K].
  - destruct Hin as [->|Hin].
    + rewrite String.eqb_refl, Z.eqb_refl in K. discriminate.
    + apply IH; assumption.
Qed.

Lemma lookup_no_record (l : list LongRow) (e : string) (y : Z) :
  (forall r, In r l -> ~ (Entity r = e /\ Year r = y)) -> lookup l e y = None.
Proof.
  unfold lookup. intros H.
  destruct (find _ l) as [r|] eqn:F; [|reflexivity].
  apply find_some in F. destruct F as [Hin K]. apply andb_true_iff in K.
  destruct K as [He Hy]. apply String.eqb_eq in He. apply Z.eqb_eq in Hy.
  exfalso. apply (H r Hin). tauto.
Qed.

Lemma row_get_map (f : Z -> cell) (y : Z) :
  forall cols, In y cols -> row_get cols (map f cols) y = Ok (f y).
Proof.
  induction cols as [|c cs IH]; simpl; [contradiction|].
  intros Hin. destruct (Z.eqb_spec c y) as [->|Hne]; [reflexivity|].
  destruct Hin as [->|Hin]; [contradiction|]. apply IH, Hin.
Qed.

(** A sorted list without repetition is strictly ascending. *)
Lemma Sorted_leb_NoDup_Z (l : list Z) :
  Sorted (fun a b => Z.leb a b = true) l -> NoDup l -> Sorted Z.lt l.
Proof.
  induction 1 as [|x t Hs IH Hhd]; intros Hnd; constructor.
  - apply IH. inversion Hnd; assumption.
  - destruct Hhd as [|y t' Hxy]; constructor.
    apply Z.leb_le in Hxy. inversion Hnd as [|? ? Hnotin _]; subst.
    assert (x <> y) by (intros ->; apply Hnotin; left; reflexivity). lia.
Qed.

Lemma Sorted_leb_NoDup_string (l : list string) :
  Sorted (fun a b => String.leb a b = true) l -> NoDup l ->
  Sorted (fun a b => String.ltb a b = true) l.
Proof.
  induction 1 as [|x t Hs IH Hhd]; intros Hnd; constructor.
  - apply IH. inversion Hnd; assumption.
  - destruct Hhd as [|y t' Hxy]; constructor.
    inversion Hnd as [|? ? Hnotin _]; subst.
    unfold String.leb in Hxy. unfold String.ltb.
    destruct (String.compare x y) eqn:E; [|reflexivity|discriminate].
    apply String.compare_eq_iff in E. subst. exfalso. apply Hnotin. left. reflexivity.
Qed.

Lemma Z_leb_total (x y : Z) : Z.leb x y = true \/ Z.leb y x = true.
Proof. rewrite !Z.leb_le. lia. Qed.
End PivotFacts.

(** X1. The pivot stores every record at its place and nothing else: when it
    succeeds, each record of the long table has a cell in the row of its
    entity under the column of its year, which is NaN exactly when the record
    reports no value and holds the reported value itself when float64 holds
    that value exactly (an integer up to 2^53 in magnitude; the cells of this
    embedding are exact, those of the table are float64); and a cell whose
    (entity, year) pair has no record is NaN. *)
Theorem pivot_cells (csv : list Pandas.LongRow) (wide : Pandas.DataFrame) :
  Pandas.pivot csv = Ok wide ->
  (forall r, In r csv ->
     exists cells c,
       In (Pandas.Entity r, cells) (Pandas.rows wide)
       /\ App.row_get (Pandas.columns wide) cells (Pandas.Year r) = Ok c
       /\ Pandas.notna c = Pandas.notna (Pandas.Total r)
       /\ ((forall q, Pandas.Total r = Some q -> Pandas.float64_exact q) ->
           c = Pandas.Total r))
  /\ (forall e cells y,
        In (e, cells) (Pandas.rows wide) -> In y (Pandas.columns wide) ->
        (forall r, In r csv -> ~ (Pandas.Entity r = e /\ Pandas.Year r = y)) ->
        App.row_get (Pandas.columns wide) cells y = Ok None).
Proof.
  intros Hp. destruct (pivot_inv _ _ Hp) as (Hd & Ec & Ei & Er).
  split.
  - intros r Hr.
    exists (map (Pandas.lookup csv (Pandas.Entity r)) (Pandas.columns wide)),
      (Pandas.Total r).
    split; [|split; [|split; [reflexivity|intros _; reflexivity]]].
    + rewrite Er. apply in_map_iff. exists (Pandas.Entity r). split; [reflexivity|].
      rewrite Ei. apply sort_by_In, (unique_In String.eqb String.eqb_eq).
      apply in_map, Hr.
    + rewrite row_get_map.
      * rewrite (lookup_record csv r Hd Hr). reflexivity.
      * rewrite Ec. apply sort_by_In, (unique_In Z.eqb Z.eqb_eq). apply in_map, Hr.
  - intros e cells y Hin Hy Hnone. rewrite Er in Hin.
    apply in_map_iff in Hin. destruct Hin as [e' [E _]]. injection E as -> <-.
    rewrite row_get_map; [|exact Hy].
    rewrite (lookup_no_record csv e y Hnone). reflexivity.
Qed.

Lemma pivot_cells_witness :
  Pandas.pivot Samples.small_csv = Ok Samples.small_wide
  /\ exists cells c,
       In ("Peru"%string, cells) (Pandas.rows Samples.small_wide)
       /\ App.row_get (Pandas.columns Samples.small_wide) cells 2005 = Ok c
       /\ c = Some (inject_Z 50).
Proof.
  assert (Hp : Pandas.pivot Samples.small_csv = Ok Samples.small_wide)
    by (vm_compute; reflexivity).
  split; [exact Hp|].
  destruct (proj1 (pivot_cells Samples.small_csv Samples.small_wide Hp)
              (Pandas.mkLongRow "Peru" 2005 (Some (inject_Z 50))))
    as (cells & c & Hin & Hg & _ & Hc).
  - vm_compute. tauto.
  - exists cells, c. split; [exact Hin|]. split; [exact Hg|].
    apply Hc. intros q [= <-]. exists 50%Z. split; [reflexivity|].
    vm_compute. discriminate.
Defined.

(** X2. The pivot raises exactly when two records of the long table have
    the same entity and the same year, and the exception is then
    [ValueError]; in every other case it returns a table. *)
Theorem pivot_raises_iff (csv : list Pandas.LongRow) :
  (Pandas.pivot csv = Raise ValueError
   <-> exists l1 a l2 b l3,
         csv = l1 ++ a :: l2 ++ b :: l3
         /\ Pandas.Entity a = Pandas.Entity b /\ Pandas.Year a = Pandas.Year b)
  /\ (forall e, Pandas.pivot csv = Raise e -> e = ValueError)
  /\ (forall e, App.load_migration_data csv = Raise e <-> Pandas.pivot csv = Raise e).
Proof.
  split; [|split].
  - rewrite <- has_duplicates_true_iff. unfold Pandas.pivot.
    destruct (Pandas.has_duplicates csv); split; intros H;
      try reflexivity; discriminate.
  - unfold Pandas.pivot. destruct (Pandas.has_duplicates csv); intros e H.
    + injection H as <-. reflexivity.
    + discriminate.
  - intros e. unfold App.load_migration_data.
    destruct (Pandas.pivot csv) as [df|e']; cbn [bind];
      split; intros H; (discriminate || exact H).
Qed.

(** X3. The shape of the pivoted table: its columns are the years of the
    records in strictly ascending order, its row labels are the entities of
    the records in strictly ascending order, and every row has one cell per
    column. *)
Theorem pivot_shape (csv : list Pandas.LongRow) (wide : Pandas.DataFrame) :
  Pandas.pivot csv = Ok wide ->
  Sorted Z.lt (Pandas.columns wide)
  /\ (forall y, In y (Pandas.columns wide) <-> exists r, In r csv /\ Pandas.Year r = y)
  /\ Sorted (fun a b => String.ltb a b = true) (Pandas.index wide)
  /\ (forall e, In e (Pandas.index wide) <-> exists r, In r csv /\ Pandas.Entity r = e)
  /\ (forall e cells, In (e, cells) (Pandas.rows wide) ->
        length cells = length (Pandas.columns wide)).
Proof.
  intros Hp. destruct (pivot_inv _ _ Hp) as (_ & Ec & Ei & _).
  split; [|split; [|split; [|split]]].
  - rewrite Ec. apply Sorted_leb_NoDup_Z.
    + apply sort_by_sorted, Z_leb_total.
    + apply sort_by_NoDup, unique_NoDup, Z.eqb_eq.
  - intros y. rewrite Ec, sort_by_In, (unique_In Z.eqb Z.eqb_eq), in_map_iff.
    split; intros [r H]; exists r; tauto.
  - rewrite Ei. apply Sorted_leb_NoDup_string.
    + apply sort_by_sorted, String.leb_total.
    + apply sort_by_NoDup, unique_NoDup, String.eqb_eq.
  - intros e. rewrite Ei, sort_by_In, (unique_In String.eqb String.eqb_eq), in_map_iff.
    split; intros [r H]; exists r; tauto.
  - apply (pivot_row_length _ _ Hp).
Qed.

Lemma pivot_shape_witness :
  Pandas.pivot Samples.small_csv = Ok Samples.small_wide
  /\ Sorted Z.lt (Pandas.columns Samples.small_wide).
Proof.
  assert (Hp : Pandas.pivot Samples.small_csv = Ok Samples.small_wide)
    by (vm_compute; reflexivity).
  split; [exact Hp|].
  exact (proj1 (pivot_shape Samples.small_csv Samples.small_wide Hp)).
Defined.

(** ** The fill pipeline, cell by cell *)

Section FillCells.
Import Pandas App.

(** [b] keeps [a] when [a] is valid. *)
Lemma keeps_trans (l1 l2 l3 : list cell) :
  Forall2 (fun a b => notna a = true -> b = a) l1 l2 ->
  Forall2 (fun a b => notna a = true -> b = a) l2 l3 ->
  Forall2 (fun a b => notna a = true -> b = a) l1 l3.
Proof.
  intros H12. revert l3. induction H12 as [|a b t t' Hab H12 IH]; intros l3 H23.
  - inversion H23. constructor.
  - inversion H23 as [|? c ? t'' Hbc H23']; subst. constructor.
    + intros Ha. rewrite <- (Hab Ha). apply Hbc. rewrite (Hab Ha). exact Ha.
    + apply IH, H23'.
Qed.

Lemma interp_after_keeps (r : list cell) :
  forall v i, Forall2 (fun a b => notna a = true -> b = a) r (interp_after v i r).
Proof.
  induction r as [|[w|] t IH]; intros v i; simpl; constructor;
    try (intros; reflexivity); try apply IH.
  discriminate.
Qed.

Lemma interpolate_row_keeps (r : list cell) :
  Forall2 (fun a b => notna a = true -> b = a) r (interpolate_row r).
Proof.
  induction r as [|[w|] t IH]; simpl; constructor;
    try (intros; reflexivity); [apply interp_after_keeps|exact IH].
Qed.

Lemma bfill_row_keeps (r : list cell) :
  Forall2 (fun a b => notna a = true -> b = a) r (bfill_row r).
Proof.
  induction r as [|[w|] t IH]; simpl; constructor;
    try (intros; reflexivity); try exact IH.
  discriminate.
Qed.

Lemma ffill_from_keeps (r : list cell) :
  forall last, Forall2 (fun a b => notna a = true -> b = a) r (ffill_from last r).
Proof.
  induction r as [|[w|] t IH]; intros last; simpl; constructor;
    try (intros; reflexivity); try apply IH.
  discriminate.
Qed.

Lemma fill_row_keeps (r : list cell) :
  Forall2 (fun a b => notna a = true -> b = a) r (fill_row r).
Proof.
  unfold fill_row, ffill_row.
  eapply keeps_trans; [apply interpolate_row_keeps|].
  eapply keeps_trans; [apply bfill_row_keeps|apply ffill_from_keeps].
Qed.

Lemma keeps_nth_error (l l' : list cell) :
  Forall2 (fun a b => notna a = true -> b = a) l l' ->
  forall i q, nth_error l i = Some (Some q) -> nth_error l' i = Some (Some q).
Proof.
  induction 1 as [|a b t t' Hab HF IH]; intros i q Hn.
  - destruct i; discriminate.
  - destruct i as [|i]; simpl in *.
    + injection Hn as ->. rewrite (Hab eq_refl). reflexivity.
    + apply IH, Hn.
Qed.

Lemma keeps_all_valid (l l' : list cell) :
  Forall2 (fun a b => notna a = true -> b = a) l l' ->
  Forall (fun c => notna c = true) l -> l' = l.
Proof.
  induction 1 as [|a b t t' Hab HF IH]; intros Hall; [reflexivity|].
  inversion Hall; subst. rewrite Hab, IH; auto.
Qed.

Lemma count_valid_zero (r : list cell) :
  count_valid r = 0%nat -> r = repeat None (length r).
Proof.
  unfold count_valid. induction r as [|[w|] t IH]; simpl; intros H.
  - reflexivity.
  - discriminate.
  - rewrite <- IH by exact H. reflexivity.
Qed.

Lemma interpolate_row_repeat_nan (n : nat) :
  interpolate_row (repeat None n) = repeat None n.
Proof. induction n as [|n IH]; simpl; [reflexivity|]. rewrite IH. reflexivity. Qed.

Lemma bfill_row_repeat_nan (n : nat) : bfill_row (repeat None n) = repeat None n.
Proof.
  induction n as [|n IH]; simpl; [reflexivity|]. rewrite IH.
  destruct n; reflexivity.
Qed.

Lemma ffill_row_repeat_nan (n : nat) : ffill_from None (repeat None n) = repeat None n.
Proof. induction n as [|n IH]; simpl; [reflexivity|]. rewrite IH. reflexivity. Qed.

Lemma fill_row_repeat_nan (n : nat) : fill_row (repeat None n) = repeat None n.
Proof.
  unfold fill_row, ffill_row.
  rewrite interpolate_row_repeat_nan, bfill_row_repeat_nan.
  apply ffill_row_repeat_nan.
Qed.

Lemma fill_row_all_nan (r : list cell) : count_valid r = 0%nat -> fill_row r = r.
Proof.
  intros H. rewrite (count_valid_zero r H). apply fill_row_repeat_nan.
Qed.
End FillCells.

(** X4. The fill pipeline never changes a known value: a valid cell of a
    row is the same cell, at the same position, of the filled row; hence a row
    without NaN is returned as it is; and a row of NaNs only has nothing to
    fill from and stays a row of NaNs.  The length never changes. *)
Theorem fill_row_keeps_known (r : list Pandas.cell) :
  length (App.fill_row r) = length r
  /\ (forall i q, nth_error r i = Some (Some q) ->
        nth_error (App.fill_row r) i = Some (Some q))
  /\ (Forall (fun c => Pandas.notna c = true) r -> App.fill_row r = r)
  /\ (Pandas.count_valid r = 0%nat -> App.fill_row r = r).
Proof.
  split; [apply fill_row_length|]. split; [|split].
  - apply keeps_nth_error, fill_row_keeps.
  - apply keeps_all_valid, fill_row_keeps.
  - apply fill_row_all_nan.
Qed.

Section FillGaps.
Import Pandas App.

(** Interpolation restarts at every valid cell: what comes after a valid
    cell [v] is interpolated from [v] alone. *)
Lemma interp_after_at_valid (rest : list cell) (v : Q) (pre : list cell) :
  forall u i, exists X,
    length X = length pre
    /\ interp_after u i (pre ++ Some v :: rest) = X ++ Some v :: interp_after v 0 rest.
Proof.
  induction pre as [|[x|] p IH]; intros u i; simpl.
  - exists []. split; reflexivity.
  - destruct (IH x 0%nat) as [X [HL E]]. rewrite E.
    exists (Some x :: X). simpl. rewrite HL. split; reflexivity.
  - destruct (IH u (S i)) as [X [HL E]]. rewrite E.
    eexists (_ :: X). simpl. rewrite HL. split; reflexivity.
Qed.

Lemma interpolate_row_at_valid (rest : list cell) (v : Q) (pre : list cell) :
  exists X,
    length X = length pre
    /\ interpolate_row (pre ++ Some v :: rest) = X ++ Some v :: interp_after v 0 rest.
Proof.
  induction pre as [|[x|] p IH]; simpl.
  - exists []. split; reflexivity.
  - destruct (interp_after_at_valid rest v p x 0%nat) as [X [HL E]]. rewrite E.
    exists (Some x :: X). simpl. rewrite HL. split; reflexivity.
  - destruct IH as [X [HL E]]. rewrite E.
    exists (None :: X). simpl. rewrite HL. split; reflexivity.
Qed.

Lemma next_valid_repeat_nan (k : nat) : next_valid (repeat None k) = None.
Proof. induction k as [|k IH]; simpl; [reflexivity|]. rewrite IH. reflexivity. Qed.

(** After a last valid cell [w], the NaNs take [w]. *)
Lemma interp_after_trailing (w : Q) (k : nat) :
  forall i, interp_after w i (repeat None k) = repeat (Some w) k.
Proof.
  induction k as [|k IH]; intros i; simpl; [reflexivity|].
  rewrite next_valid_repeat_nan, IH. reflexivity.
Qed.

Lemma interpolate_row_leading (k : nat) (v : Q) (rest : list cell) :
  interpolate_row (repeat None k ++ Some v :: rest)
  = repeat None k ++ Some v :: interp_after v 0 rest.
Proof. induction k as [|k IH]; simpl; [reflexivity|]. rewrite IH. reflexivity. Qed.

Lemma bfill_row_leading (k : nat) (v : Q) (rest : list cell) :
  bfill_row (repeat None k ++ Some v :: rest)
  = repeat (Some v) k ++ Some v :: bfill_row rest.
Proof.
  induction k as [|k IH]; simpl; [reflexivity|]. rewrite IH.
  destruct k; reflexivity.
Qed.

Lemma nth_error_past (X : list cell) (c : cell) (Y : list cell) (n j : nat) :
  length X = n -> nth_error (X ++ c :: Y) (n + 1 + j) = nth_error Y j.
Proof.
  intros <-. rewrite nth_error_app2 by lia.
  replace (length X + 1 + j - length X)%nat with (S j) by lia. reflexivity.
Qed.

Lemma bfill_ffill_keep (l : list cell) (i : nat) (q : Q) :
  nth_error l i = Some (Some q) ->
  nth_error (ffill_row (bfill_row l)) i = Some (Some q).
Proof.
  intros H. unfold ffill_row.
  apply (keeps_nth_error _ _ (ffill_from_keeps _ _)).
  apply (keeps_nth_error _ _ (bfill_row_keeps _)). exact H.
Qed.
End FillGaps.

Section FillStages.
Import Pandas App.

Lemma interp_after_valid (r : list cell) :
  forall v i, Forall (fun c => notna c = true) (interp_after v i r).
Proof.
  induction r as [|[w|] t IH]; intros v i; simpl; constructor; try apply IH.
  - reflexivity.
  - destruct (next_valid t) as [[k w]|]; reflexivity.
Qed.

(** After the interpolation a row is a run of NaNs followed by valid cells
    only. *)
Lemma interpolate_row_shape (r : list cell) :
  exists k s,
    interpolate_row r = repeat None k ++ s /\ Forall (fun c => notna c = true) s.
Proof.
  induction r as [|[w|] t IH]; simpl.
  - exists 0%nat, []. split; [reflexivity|constructor].
  - exists 0%nat, (Some w :: interp_after w 0 t). split; [reflexivity|].
    constructor; [reflexivity|apply interp_after_valid].
  - destruct IH as (k & s & E & Hs). exists (S k), s. rewrite E. split; [reflexivity|exact Hs].
Qed.

(** The forward fill finds nothing to fill once the interpolation and the
    backward fill have run. *)
Lemma ffill_after_bfill_interpolate (r : list cell) :
  ffill_row (bfill_row (interpolate_row r)) = bfill_row (interpolate_row r).
Proof.
  destruct (interpolate_row_shape r) as (k & s & E & Hs). rewrite E.
  destruct s as [|[v|] s'].
  - rewrite app_nil_r, bfill_row_repeat_nan. apply ffill_row_repeat_nan.
  - rewrite bfill_row_leading. inversion Hs as [|? ? _ Hs']; subst.
    rewrite (keeps_all_valid _ _ (bfill_row_keeps s') Hs').
    apply (keeps_all_valid _ _ (ffill_from_keeps _ None)).
    apply Forall_app. split.
    + clear. induction k; simpl; constructor; [reflexivity|assumption].
    + constructor; [reflexivity|exact Hs'].
  - inversion Hs as [|? ? Hv _]; subst. discriminate Hv.
Qed.
End FillStages.

(** C2, as the code has it.  For a row whose five ordered year cells are
    [missing, 10, missing, 30, missing] the fill pipeline produces
    [10, 10, 20, 30, 30], stage by stage: the interpolation alone gives
    [missing, 10, 20, 30, 30] (20 in the middle gap and, the direction being
    forward, 30 in the trailing cell), the backward fill sets the leading
    cell to 10, and the forward fill changes nothing.  On every row the
    forward fill that follows the interpolation and the backward fill is the
    identity.  The same holds for the row inside a table. *)
Theorem C2_fill_stages :
  let r := [None; Some (10 # 1); None; Some (30 # 1); None] in
  Forall2 Pandas.cell_equiv (Pandas.interpolate_row r)
    [None; Some (10 # 1); Some (20 # 1); Some (30 # 1); Some (30 # 1)]
  /\ Forall2 Pandas.cell_equiv (Pandas.bfill_row (Pandas.interpolate_row r))
       [Some (10 # 1); Some (10 # 1); Some (20 # 1); Some (30 # 1); Some (30 # 1)]
  /\ Forall2 Pandas.cell_equiv (App.fill_row r)
       [Some (10 # 1); Some (10 # 1); Some (20 # 1); Some (30 # 1); Some (30 # 1)]
  /\ (forall r' : list Pandas.cell,
        Pandas.ffill_row (Pandas.bfill_row (Pandas.interpolate_row r'))
        = Pandas.bfill_row (Pandas.interpolate_row r'))
  /\ forall (e : string) (cols : list Z),
       Pandas.rows
         (Pandas.ffill (Pandas.bfill (Pandas.interpolate
            (Pandas.mkDataFrame cols [(e, r)]))))
       = [(e, App.fill_row r)].
Proof.
  cbv zeta.
  split; [|split; [|split; [|split]]].
  - repeat constructor; vm_compute; reflexivity.
  - repeat constructor; vm_compute; reflexivity.
  - repeat constructor; vm_compute; reflexivity.
  - apply ffill_after_bfill_interpolate.
  - intros e cols. rewrite fill_rows. reflexivity.
Qed.

(** C2 as stated fails in its account of the trailing cell: before the
    forward fill runs, the trailing cell of the row is already 30, not
    missing, so the forward fill sets nothing. *)
Lemma C2_counterexample :
  nth 4 (Pandas.interpolate_row [None; Some (10 # 1); None; Some (30 # 1); None]) None
  = Some (30 # 1)
  /\ nth 4 (Pandas.bfill_row
              (Pandas.interpolate_row [None; Some (10 # 1); None; Some (30 # 1); None]))
       None
     <> None
  /\ Pandas.ffill_row
       (Pandas.bfill_row
          (Pandas.interpolate_row [None; Some (10 # 1); None; Some (30 # 1); None]))
     = Pandas.bfill_row
         (Pandas.interpolate_row [None; Some (10 # 1); None; Some (30 # 1); None]).
Proof.
  split; [reflexivity|]. split; [discriminate|reflexivity].
Qed.

(** X6. Leading gap: when a row starts with [k] NaNs followed by a known
    value [v], the filled row starts with [k + 1] cells equal to [v] (the
    backward fill of the first known value). *)
Theorem fill_row_leading_gap (k : nat) (v : Q) (rest : list Pandas.cell) (j : nat) :
  (j <= k)%nat ->
  nth_error (App.fill_row (repeat None k ++ Some v :: rest)) j = Some (Some v).
Proof.
  intros Hj. unfold App.fill_row, Pandas.ffill_row.
  apply (keeps_nth_error _ _ (ffill_from_keeps _ _)).
  rewrite interpolate_row_leading, bfill_row_leading.
  change (repeat (Some v) k ++ Some v :: Pandas.bfill_row (Pandas.interp_after v 0 rest))
    with (repeat (Some v) k ++ [Some v] ++ Pandas.bfill_row (Pandas.interp_after v 0 rest)).
  rewrite app_assoc, nth_error_app1.
  - rewrite <- repeat_cons. change (Some v :: repeat (Some v) k) with (repeat (Some v) (S k)).
    apply nth_error_repeat. lia.
  - rewrite length_app, repeat_length. simpl. lia.
Qed.

Lemma fill_row_leading_gap_witness :
  nth_error (App.fill_row (repeat None 2 ++ Some (7 # 1) :: [None; Some (9 # 1)])) 1
  = Some (Some (7 # 1)).
Proof. apply fill_row_leading_gap. lia. Defined.

Section Float64Facts.
Import Float64.

Lemma f_interp_after_at_valid (rest : list float) (v : float) :
  PrimFloat.is_nan v = false ->
  forall pre u i, exists X,
    length X = length pre
    /\ interp_after u i (pre ++ v :: rest) = X ++ v :: interp_after v 0 rest.
Proof.
  intros Hv. induction pre as [|c p IH]; intros u i; simpl.
  - rewrite Hv. exists []. split; reflexivity.
  - destruct (PrimFloat.is_nan c).
    + destruct (IH u (S i)) as [X [HL E]]. rewrite E.
      eexists (_ :: X). simpl. rewrite HL. split; reflexivity.
    + destruct (IH c 0%nat) as [X [HL E]]. rewrite E.
      exists (c :: X). simpl. rewrite HL. split; reflexivity.
Qed.

Lemma f_interpolate_row_at_valid (rest : list float) (v : float) :
  PrimFloat.is_nan v = false ->
  forall pre, exists X,
    length X = length pre
    /\ interpolate_row (pre ++ v :: rest) = X ++ v :: interp_after v 0 rest.
Proof.
  intros Hv. induction pre as [|c p IH]; simpl.
  - rewrite Hv. exists []. split; reflexivity.
  - destruct (PrimFloat.is_nan c).
    + destruct IH as [X [HL E]]. rewrite E.
      exists (c :: X). simpl. rewrite HL. split; reflexivity.
    + destruct (f_interp_after_at_valid rest v Hv p c 0%nat) as [X [HL E]]. rewrite E.
      exists (c :: X). simpl. rewrite HL. split; reflexivity.
Qed.

Lemma f_next_valid_gap (gap : list float) (w : float) (post : list float) :
  Forall (fun c => PrimFloat.is_nan c = true) gap ->
  PrimFloat.is_nan w = false ->
  next_valid (gap ++ w :: post) = Some (length gap, w).
Proof.
  intros Hg Hw. induction Hg as [|c t Hc Ht IH]; simpl.
  - rewrite Hw. reflexivity.
  - rewrite Hc, IH. reflexivity.
Qed.

Lemma f_interp_after_gap (v w : float) (post gap : list float) :
  Forall (fun c => PrimFloat.is_nan c = true) gap ->
  PrimFloat.is_nan w = false ->
  forall i j, (j < length gap)%nat ->
    nth_error (interp_after v i (gap ++ w :: post)) j
    = Some (lerp v w (i + j + 1) (i + length gap + 1)).
Proof.
  intros Hg Hw. induction Hg as [|c t Hc Ht IH]; intros i j Hj; simpl in *; [lia|].
  rewrite Hc. destruct j as [|j]; simpl.
  - rewrite (f_next_valid_gap t w post Ht Hw). do 2 f_equal; lia.
  - rewrite IH by lia. do 2 f_equal; lia.
Qed.

Lemma f_bfill_row_keeps (l : list float) :
  forall i c, nth_error l i = Some c -> PrimFloat.is_nan c = false ->
              nth_error (bfill_row l) i = Some c.
Proof.
  induction l as [|a t IH]; intros i c Hn Hc; [destruct i; discriminate|].
  simpl. destruct i as [|i]; simpl in Hn.
  - injection Hn as ->. rewrite Hc. reflexivity.
  - destruct (PrimFloat.is_nan a); simpl; apply IH; assumption.
Qed.

Lemma f_ffill_from_keeps (l : list float) :
  forall last i c, nth_error l i = Some c -> PrimFloat.is_nan c = false ->
                   nth_error (ffill_from last l) i = Some c.
Proof.
  induction l as [|a t IH]; intros last i c Hn Hc; [destruct i; discriminate|].
  simpl. destruct i as [|i]; simpl in Hn.
  - injection Hn as ->. rewrite Hc. reflexivity.
  - destruct (PrimFloat.is_nan a); simpl; apply IH; assumption.
Qed.
End Float64Facts.

(** X7. Interior gap, on the doubles the table holds: between a valid cell
    [v] and the next valid cell [w], separated by NaNs, the [j]-th NaN
    (counting from 0) is filled with what [numpy.interp] computes in binary64
    for offset [j + 1] of [length gap + 1] equal steps, slope times offset
    plus [v] with every operation rounded, provided that result is a number;
    the year labels and the other cells of the row play no part.  (Between 1
    and 2 over two NaNs the second is 1.6666666666666665, not 5/3.) *)
Theorem fill_row_interior_gap (pre gap post : list float) (v w : float) (j : nat) :
  PrimFloat.is_nan v = false ->
  PrimFloat.is_nan w = false ->
  Forall (fun c => PrimFloat.is_nan c = true) gap ->
  (j < length gap)%nat ->
  PrimFloat.is_nan (Float64.lerp v w (S j) (S (length gap))) = false ->
  nth_error (Float64.fill_row (pre ++ v :: gap ++ w :: post)) (length pre + 1 + j)
  = Some (Float64.lerp v w (S j) (S (length gap))).
Proof.
  intros Hv Hw Hg Hj Hres. unfold Float64.fill_row, Float64.ffill_row.
  apply f_ffill_from_keeps; [|exact Hres].
  apply f_bfill_row_keeps; [|exact Hres].
  destruct (f_interpolate_row_at_valid (gap ++ w :: post) v Hv pre) as [X [HL E]].
  rewrite E. rewrite nth_error_app2 by lia.
  replace (length pre + 1 + j - length X)%nat with (S j) by lia. simpl.
  rewrite (f_interp_after_gap v w post gap Hg Hw 0 j Hj).
  do 2 f_equal; lia.
Qed.

Lemma fill_row_interior_gap_witness :
  nth_error
    (Float64.fill_row
       ([] ++ 1%float :: [PrimFloat.nan; PrimFloat.nan] ++ 2%float :: []))
    (length (@nil float) + 1 + 1)
  = Some (0x1.aaaaaaaaaaaaap+0)%float.
Proof.
  apply (fill_row_interior_gap [] [PrimFloat.nan; PrimFloat.nan] [] 1%float 2%float 1).
  - reflexivity.
  - reflexivity.
  - repeat constructor.
  - simpl. lia.
  - vm_compute. reflexivity.
Defined.

(** The binary64 pipeline on the row of the fill-ordering example, and on a
    gap whose difference overflows. *)
Lemma float64_fill_examples :
  Float64.fill_row [PrimFloat.nan; 10; PrimFloat.nan; 30; PrimFloat.nan]%float
  = [10; 10; 20; 30; 30]%float
  /\ Float64.fill_row
       [0x1.1ccf385ebc8ap+1023; PrimFloat.nan; -0x1.1ccf385ebc8ap+1023]%float
     = [0x1.1ccf385ebc8ap+1023; PrimFloat.neg_infinity; -0x1.1ccf385ebc8ap+1023]%float.
Proof. split; vm_compute; reflexivity. Qed.

(** X8. Trailing gap: the NaNs after the last known value [w] of a row are
    all filled with [w]. *)
Theorem fill_row_trailing_gap (pre : list Pandas.cell) (w : Q) (k j : nat) :
  (j < k)%nat ->
  nth_error (App.fill_row (pre ++ Some w :: repeat None k)) (length pre + 1 + j)
  = Some (Some w).
Proof.
  intros Hj. unfold App.fill_row. apply bfill_ffill_keep.
  destruct (interpolate_row_at_valid (repeat None k) w pre) as [X [HL E]].
  rewrite E, (nth_error_past X _ _ (length pre) j HL).
  rewrite interp_after_trailing. apply nth_error_repeat. exact Hj.
Qed.

Lemma fill_row_trailing_gap_witness :
  nth_error (App.fill_row ([Some (5 # 1)] ++ Some (30 # 1) :: repeat None 2))
    (length [Some (5 # 1)] + 1 + 1)
  = Some (Some (30 # 1)).
Proof. apply fill_row_trailing_gap. lia. Defined.

(** ** The loaded table against the records of the CSV *)

Section LoadedFacts.
Import Pandas App.

Lemma fix_names_values_not_keys (k v : string) :
  In (k, v) fix_names -> dict_get fix_names v = None.
Proof.
  unfold fix_names. simpl.
  intros H; repeat (destruct H as [[= <- <-]|H]; [reflexivity|]).
  contradiction.
Qed.

Lemma row_get_keeps (cols : list Z) (y : Z) (q : Q) :
  forall l l',
    Forall2 (fun a b => notna a = true -> b = a) l l' ->
    row_get cols l y = Ok (Some q) -> row_get cols l' y = Ok (Some q).
Proof.
  induction cols as [|c cs IH]; intros l l' HF H; [destruct l; discriminate|].
  destruct HF as [|a b t t' Hab HF]; [discriminate|]. simpl in *.
  destruct (Z.eqb c y).
  - injection H as ->. rewrite (Hab eq_refl). reflexivity.
  - apply (IH t t' HF H).
Qed.
End LoadedFacts.

(** X9. Every row label of the loaded table is in normalized form: it is
    not a key of the name map, so renaming it again leaves it unchanged (no
    loaded country is called United States, Czechia, Laos, ...). *)
Theorem loaded_labels_normalized (csv : list Pandas.LongRow) (df : Pandas.DataFrame) :
  App.load_migration_data csv = Ok df ->
  forall name, In name (Pandas.index df) ->
    Pandas.dict_get App.fix_names name = None
    /\ Pandas.rename_label App.fix_names name = name.
Proof.
  intros H name Hin.
  destruct (load_migration_data_inv _ _ H) as [wide [_ ->]].
  rewrite index_rename in Hin. apply in_map_iff in Hin. destruct Hin as [e [<- _]].
  assert (Hk : Pandas.dict_get App.fix_names (Pandas.rename_label App.fix_names e) = None).
  { destruct (rename_label_cases App.fix_names e) as [[Hn E]|Hin].
    - rewrite E. exact Hn.
    - apply (fix_names_values_not_keys _ _ Hin). }
  split; [exact Hk|]. unfold Pandas.rename_label at 1. rewrite Hk. reflexivity.
Qed.

Lemma loaded_labels_normalized_witness :
  App.load_migration_data Samples.small_csv = Ok Samples.small_table
  /\ Pandas.dict_get App.fix_names "Lao PDR" = None.
Proof.
  assert (H : App.load_migration_data Samples.small_csv = Ok Samples.small_table)
    by (vm_compute; reflexivity).
  split; [exact H|].
  apply (loaded_labels_normalized Samples.small_csv Samples.small_table H "Lao PDR"%string).
  vm_compute. tauto.
Defined.

(** X10. The loader invents no row and loses no reported value: every row
    of the loaded table is the row of an entity of the CSV that is not an
    aggregate, under its normalized name; and under the year of each record of
    that entity that reports a value, the row holds a value, which is the
    reported one whenever float64 holds it exactly (an integer up to 2^53 in
    magnitude; the cells of this embedding are exact, those of the table are
    float64). *)
Theorem loaded_rows_sound (csv : list Pandas.LongRow) (df : Pandas.DataFrame) :
  App.load_migration_data csv = Ok df ->
  forall name cells, In (name, cells) (Pandas.rows df) ->
    exists e,
      name = Pandas.rename_label App.fix_names e
      /\ Pandas.isin App.aggregates e = false
      /\ (exists r, In r csv /\ Pandas.Entity r = e)
      /\ (forall r q, In r csv -> Pandas.Entity r = e -> Pandas.Total r = Some q ->
            exists c,
              App.row_get (Pandas.columns df) cells (Pandas.Year r) = Ok c
              /\ Pandas.notna c = true
              /\ (Pandas.float64_exact q -> c = Some q)).
Proof.
  intros H name cells Hin.
  destruct (load_migration_data_inv _ _ H) as [wide [Hp ->]].
  apply in_rows_rename in Hin. destruct Hin as [e [Hin ->]].
  apply in_rows_clean in Hin. destruct Hin as [c0 (Hin & _ & Hagg & ->)].
  destruct (pivot_inv _ _ Hp) as (Hd & Ec & Ei & Er).
  exists e. split; [reflexivity|]. split; [exact Hagg|]. split.
  - assert (He : In e (Pandas.index wide)).
    { apply in_index. exists c0. exact Hin. }
    rewrite Ei in He.
    apply sort_by_In, (unique_In String.eqb String.eqb_eq), in_map_iff in He.
    destruct He as [r [E Hr]]. exists r. tauto.
  - intros r q Hr He Hq. exists (Some q).
    split; [|split; [reflexivity|intros _; reflexivity]].
    cbn [Pandas.columns Pandas.rename App.clean Pandas.drop_isin].
    apply (row_get_keeps _ _ _ c0 _ (fill_row_keeps c0)).
    rewrite Er in Hin. apply in_map_iff in Hin. destruct Hin as [e' [E _]].
    injection E as -> <-.
    rewrite row_get_map.
    + rewrite <- He, (lookup_record csv r Hd Hr), Hq. reflexivity.
    + rewrite Ec. apply sort_by_In, (unique_In Z.eqb Z.eqb_eq). apply in_map, Hr.
Qed.

Lemma loaded_rows_sound_witness :
  App.load_migration_data Samples.small_csv = Ok Samples.small_table
  /\ exists e,
       "Lao PDR"%string = Pandas.rename_label App.fix_names e
       /\ Pandas.isin App.aggregates e = false.
Proof.
  assert (H : App.load_migration_data Samples.small_csv = Ok Samples.small_table)
    by (vm_compute; reflexivity).
  split; [exact H|].
  destruct (loaded_rows_sound Samples.small_csv Samples.small_table H "Lao PDR"%string
              [Some (10 # 1); Some (20 # 1); Some (30 # 1);
               Some (40 # 1); Some (50 # 1); Some (60 # 1)])
    as [e (E & Hagg & _)].
  - vm_compute. tauto.
  - exists e. split; assumption.
Defined.

(** ** Year selection and column access *)

Section YearFacts.
Import Pandas App.

Lemma fold_max_spec (t : list Z) :
  forall x,
    In (fold_left Z.max t x) (x :: t)
    /\ forall c, In c (x :: t) -> (c <= fold_left Z.max t x)%Z.
Proof.
  induction t as [|a t IH]; intros x; simpl.
  - split; [left; reflexivity|]. intros c [->|[]]. lia.
  - destruct (IH (Z.max x a)) as [Hin Hle]. split.
    + destruct Hin as [E|Hin]; [|right; right; exact Hin].
      rewrite <- E. destruct (Z.max_spec x a) as [[_ ->]|[_ ->]]; auto.
    + intros c Hc.
      assert (Hm : (Z.max x a <= fold_left Z.max t (Z.max x a))%Z)
        by (apply Hle; left; reflexivity).
      destruct Hc as [->|[->|Hc]]; [lia|lia|].
      apply Hle. right. exact Hc.
Qed.

Lemma row_get_missing (cols : list Z) (y : Z) :
  ~ In y cols -> forall vals, row_get cols vals y = Raise KeyError.
Proof.
  induction cols as [|c cs IH]; intros Hn vals; [destruct vals; reflexivity|].
  destruct vals as [|v vs]; [reflexivity|]. simpl.
  destruct (Z.eqb_spec c y) as [->|Hne]; [exfalso; apply Hn; left; reflexivity|].
  apply IH. intros H. apply Hn. right. exact H.
Qed.
End YearFacts.

(** X11. The year domain and its default: [years] holds the columns of the
    table in ascending order; on a table without columns the default year
    raises [ValueError] (Python's [max] of an empty list); otherwise the
    default year is a column of the table and no column is larger. *)
Theorem default_year_spec (df : Pandas.DataFrame) :
  Permutation (Pandas.columns df) (App.years df)
  /\ Sorted (fun a b => Z.leb a b = true) (App.years df)
  /\ (Pandas.columns df = [] -> App.default_year df = Raise ValueError)
  /\ (Pandas.columns df <> [] ->
      exists y, App.default_year df = Ok y
                /\ In y (Pandas.columns df)
                /\ forall c, In c (Pandas.columns df) -> (c <= y)%Z).
Proof.
  unfold App.default_year, App.years.
  split; [apply sort_by_perm|]. split; [apply sort_by_sorted, Z_leb_total|]. split.
  - intros ->. reflexivity.
  - intros Hne.
    pose proof (sort_by_In Z.leb (Pandas.columns df)) as HIn.
    destruct (sort_by Z.leb (Pandas.columns df)) as [|x t] eqn:E.
    + exfalso. destruct (Pandas.columns df) as [|c cs]; [apply Hne; reflexivity|].
      apply (proj2 (HIn c)). left. reflexivity.
    + destruct (fold_max_spec t x) as [Hm Hle].
      exists (fold_left Z.max t x). split; [reflexivity|]. split.
      * apply HIn, Hm.
      * intros c Hc. apply Hle, HIn, Hc.
Qed.

(** X12. Reading a cell by its year label: on a row with one cell per
    column, [row[year]] raises [KeyError] exactly when the year is not a
    column and raises nothing else; when the column labels are distinct it
    returns the cell at the position of the year among the columns. *)
Theorem row_get_spec (cols : list Z) (vals : list Pandas.cell) (y : Z) :
  length vals = length cols ->
  (App.row_get cols vals y = Raise KeyError <-> ~ In y cols)
  /\ (forall e, App.row_get cols vals y = Raise e -> e = KeyError)
  /\ (NoDup cols ->
      forall v, App.row_get cols vals y = Ok v
                <-> exists i, nth_error cols i = Some y /\ nth_error vals i = Some v).
Proof.
  revert vals. induction cols as [|c cs IH]; intros vals Hlen.
  - destruct vals; [|discriminate]. simpl. split; [|split].
    + split; [intros _ []|reflexivity].
    + intros e [= <-]. reflexivity.
    + intros _ v. split; [discriminate|]. intros [i [H _]]. destruct i; discriminate.
  - destruct vals as [|v0 vs]; [discriminate|]. simpl in Hlen.
    destruct (IH vs) as (IH1 & IH2 & IH3); [lia|]. simpl.
    destruct (Z.eqb_spec c y) as [->|Hne]; split; [| split | | split].
    + split; [discriminate|]. intros H. exfalso. apply H. left. reflexivity.
    + discriminate.
    + intros Hnd v. inversion Hnd as [|? ? Hnotin _]; subst. split.
      * intros [= ->]. exists 0%nat. split; reflexivity.
      * intros [[|i] [Hc Hv]]; simpl in *.
        -- injection Hv as ->. reflexivity.
        -- exfalso. apply Hnotin. eapply nth_error_In, Hc.
    + rewrite IH1. split; intros H.
      * intros [E|Hin]; [contradiction|apply H, Hin].
      * intros Hin. apply H. right. exact Hin.
    + exact IH2.
    + intros Hnd v. inversion Hnd as [|? ? _ Hnd']; subst.
      rewrite (IH3 Hnd' v). split.
      * intros [i [Hc Hv]]. exists (S i). split; assumption.
      * intros [[|i] [Hc Hv]]; simpl in *.
        -- injection Hc as Hc. contradiction.
        -- exists i. split; assumption.
Qed.

Lemma row_get_spec_witness :
  (App.row_get [1990; 1995]%Z [Some (1 # 1); None] 2000 = Raise KeyError
   <-> ~ In 2000%Z [1990; 1995]%Z).
Proof.
  apply (row_get_spec [1990; 1995]%Z [Some (1 # 1); None] 2000). reflexivity.
Defined.

(** ** The rows of the merge and the choropleth *)

Section MergeFacts.
Import Pandas App.

(** In a table with distinct labels at most one row has a given label. *)
Lemma one_row_per_label (tbl : list (string * list cell)) (name : string) :
  NoDup (map fst tbl) ->
  (length (filter (fun r => String.eqb name (fst r)) tbl) <= 1)%nat.
Proof.
  intros Hnd.
  pose proof (filter_keeps_labels_distinct
                (fun r => String.eqb name (fst r)) tbl Hnd) as Hf.
  assert (Hall : forall r, In r (filter (fun r => String.eqb name (fst r)) tbl) ->
                           fst r = name).
  { intros r Hr. apply filter_In in Hr. destruct Hr as [_ E].
    apply String.eqb_eq in E. symmetry. exact E. }
  destruct (filter (fun r => String.eqb name (fst r)) tbl) as [|a [|b t]];
    simpl; [lia|lia|].
  exfalso. simpl in Hf. inversion Hf as [|? ? Hnotin _]; subst.
  apply Hnotin. left.
  rewrite (Hall a), (Hall b); [reflexivity|right; left; reflexivity|left; reflexivity].
Qed.

Lemma merge_entities_cons (w : WorldRow) (world : list WorldRow) (df : DataFrame) :
  entities (merge (w :: world) df)
  = repeat (w_Entity w)
      (length (filter (fun r => String.eqb (w_Entity w) (fst r)) (rows df)))
    ++ entities (merge world df).
Proof.
  unfold entities, merge. cbn [m_rows flat_map]. rewrite map_app, map_map.
  cbn [m_Entity]. f_equal.
  induction (filter (fun r => String.eqb (w_Entity w) (fst r)) (rows df))
    as [|a t IH]; simpl; [reflexivity|]. rewrite IH. reflexivity.
Qed.

Lemma choropleth_rows_spec (cols : list Z) (year : Z) (l : list MergedRow) :
  (forall r, In r l -> length (m_values r) = length cols) ->
  In year cols ->
  exists vals,
    choropleth_rows cols l year = Ok vals
    /\ Forall2 (fun r t => fst (fst t) = m_Entity r
                           /\ snd (fst t) = m_geometry r
                           /\ row_get cols (m_values r) year = Ok (snd t))
         l vals.
Proof.
  intros Hwf Hy. induction l as [|r t IH]; simpl.
  - exists []. split; [reflexivity|constructor].
  - destruct (row_get_total cols (m_values r) year) as [v Ev];
      [apply Hwf; left; reflexivity|exact Hy|].
    destruct IH as [rest [Er HF]].
    { intros r0 H0. apply Hwf. right. exact H0. }
    rewrite Ev, Er. cbn [bind]. eexists. split; [reflexivity|].
    constructor; [cbn; tauto|exact HF].
Qed.

Lemma has_column_false (cols : list Z) (y : Z) : ~ In y cols -> has_column cols y = false.
Proof.
  intros H. unfold has_column. apply not_true_iff_false. intros E.
  apply existsb_exists in E. destruct E as [c [Hc E]].
  apply Z.eqb_eq in E. subst. contradiction.
Qed.
End MergeFacts.

(** X13. The rows of the merged table: a row is in the merge exactly when
    it pairs a row of [world] with a row of the migration table of the same
    name, carrying that name, the geometry, the migration row's cells and the
    centroid of the geometry as longitude and latitude; the year columns are
    those of the migration table.  When the names are distinct on both sides,
    they are distinct in the merge. *)
Theorem merge_rows (world : list App.WorldRow) (df_wide : Pandas.DataFrame) :
  App.m_columns (App.merge world df_wide) = Pandas.columns df_wide
  /\ (forall r, In r (App.m_rows (App.merge world df_wide))
        <-> exists w cells,
              In w world /\ In (App.w_Entity w, cells) (Pandas.rows df_wide)
              /\ r = App.mkMergedRow (App.w_Entity w) (App.w_geometry w) cells
                       (App.centroid_x (App.w_geometry w))
                       (App.centroid_y (App.w_geometry w)))
  /\ (NoDup (map App.w_Entity world) -> NoDup (Pandas.index df_wide) ->
      NoDup (App.entities (App.merge world df_wide))).
Proof.
  split; [reflexivity|]. split.
  - intros r. unfold App.merge. cbn [App.m_rows]. rewrite in_flat_map. split.
    + intros [w [Hw Hr]]. apply in_map_iff in Hr. destruct Hr as [[e cells] [<- Hin]].
      apply filter_In in Hin. destruct Hin as [Hin E]. apply String.eqb_eq in E.
      cbn [fst snd] in *. subst e. exists w, cells. tauto.
    + intros [w [cells (Hw & Hin & ->)]]. exists w. split; [exact Hw|].
      apply in_map_iff. exists (App.w_Entity w, cells). split; [reflexivity|].
      apply filter_In. split; [exact Hin|]. apply String.eqb_refl.
  - intros Hw Hd. induction world as [|w world IH]; [constructor|].
    rewrite merge_entities_cons. simpl in Hw.
    inversion Hw as [|? ? Hnotin Hw']; subst.
    pose proof (one_row_per_label (Pandas.rows df_wide) (App.w_Entity w) Hd) as Hone.
    assert (Hrest : ~ In (App.w_Entity w) (App.entities (App.merge world df_wide))).
    { intros Hin. apply Hnotin. unfold App.entities, App.merge in Hin.
      cbn [App.m_rows] in Hin. apply in_map_iff in Hin. destruct Hin as [m [E Hm]].
      apply in_flat_map in Hm. destruct Hm as [w' [Hw'' Hm]].
      apply in_map_iff in Hm. destruct Hm as [r [<- _]]. cbn in E.
      rewrite <- E. apply in_map, Hw''. }
    destruct (length (filter (fun r => String.eqb (App.w_Entity w) (fst r))
                        (Pandas.rows df_wide))) as [|[|n]]; simpl.
    + apply IH, Hw'.
    + constructor; [exact Hrest|apply IH, Hw'].
    + lia.
Qed.

(** X14. The choropleth keeps every country: on a merged table whose rows
    have one cell per column and for a year that is a column, it returns one
    entry per row, in row order, with the row's name, its geometry and the
    row's cell at the position the year has among the columns, the
    destination included; for a year that is not a column it raises
    [ValueError]. *)
Theorem choropleth_spec (merged : App.Merged) (year : Z) :
  (forall r, In r (App.m_rows merged) ->
     length (App.m_values r) = length (App.m_columns merged)) ->
  (In year (App.m_columns merged) ->
   exists vals,
     App.choropleth merged year = Ok vals
     /\ length vals = length (App.m_rows merged)
     /\ Forall2 (fun r t => fst (fst t) = App.m_Entity r
                            /\ snd (fst t) = App.m_geometry r
                            /\ exists i,
                                 nth_error (App.m_columns merged) i = Some year
                                 /\ (forall j, (j < i)%nat ->
                                       nth_error (App.m_columns merged) j <> Some year)
                                 /\ nth_error (App.m_values r) i = Some (snd t))
          (App.m_rows merged) vals)
  /\ (~ In year (App.m_columns merged) ->
      App.choropleth merged year = Raise ValueError).
Proof.
  intros Hwf. split.
  - intros Hy.
    destruct (choropleth_rows_spec _ year (App.m_rows merged) Hwf Hy) as [vals [E HF]].
    exists vals. split.
    + unfold App.choropleth. rewrite (has_column_true _ _ Hy). exact E.
    + split; [symmetry; apply (Forall2_length HF)|].
      eapply Forall2_impl; [|exact HF]. cbv beta. intros r t (H1 & H2 & Hv).
      split; [exact H1|]. split; [exact H2|apply (row_get_position _ _ _ _ Hv)].
  - intros Hn. unfold App.choropleth. rewrite (has_column_false _ _ Hn). reflexivity.
Qed.

Lemma choropleth_spec_witness :
  App.choropleth Samples.small_merged 1999 = Raise ValueError.
Proof.
  apply (choropleth_spec Samples.small_merged 1999).
  - intros r Hr. vm_compute in Hr.
    destruct Hr as [<-|[<-|[<-|[]]]]; reflexivity.
  - vm_compute. intuition discriminate.
Defined.

(** ** The globe flows on bad selections *)

Section GlobeEdges.
Import Pandas App.

Lemma dest_row_absent (merged : Merged) (D : string) :
  ~ In D (entities merged) -> dest_row merged D = Raise IndexError.
Proof.
  intros H. unfold dest_row.
  destruct (filter (fun r => String.eqb (m_Entity r) D) (m_rows merged))
    as [|d t] eqn:F; [reflexivity|].
  exfalso. apply H.
  assert (Hin : In d (filter (fun r => String.eqb (m_Entity r) D) (m_rows merged)))
    by (rewrite F; left; reflexivity).
  apply filter_In in Hin. destruct Hin as [Hin E]. apply String.eqb_eq in E.
  unfold entities. rewrite <- E. apply in_map, Hin.
Qed.

Lemma flow_loop_missing_year (cols : list Z) (D : string) (dest : MergedRow) (year : Z) :
  ~ In year cols ->
  forall l flows,
    flow_loop cols l D dest year flows
    = if existsb (fun r => negb (String.eqb (m_Entity r) D)) l
      then Raise KeyError else Ok flows.
Proof.
  intros Hn. induction l as [|r t IH]; intros flows; simpl; [reflexivity|].
  destruct (negb (String.eqb (m_Entity r) D)); simpl.
  - rewrite (row_get_missing cols year Hn). reflexivity.
  - apply IH.
Qed.
End GlobeEdges.

Lemma globe_flows_absent_dest_witness :
  App.globe_flows Samples.small_merged "Fiji" 2015 = Raise IndexError.
Proof.
  apply globe_flows_absent_dest. vm_compute. intuition discriminate.
Defined.

(** X16. The globe flows for a year that is not a column: with a
    destination of the merged table, the loop raises [KeyError] at the first
    row named differently from the destination; when no such row exists the
    year is never read and the result is the empty flow list. *)
Theorem globe_flows_missing_year (merged : App.Merged) (D : string) (year : Z) :
  In D (App.entities merged) ->
  ~ In year (App.m_columns merged) ->
  App.globe_flows merged D year
  = if existsb (fun r => negb (String.eqb (App.m_Entity r) D)) (App.m_rows merged)
    then Raise KeyError else Ok [].
Proof.
  intros HD Hn. destruct (dest_row_found merged D HD) as [dest (Ed & _ & _)].
  unfold App.globe_flows. rewrite Ed. cbn [bind].
  apply flow_loop_missing_year, Hn.
Qed.

Lemma globe_flows_missing_year_witness :
  App.globe_flows Samples.small_merged "Chad" 1999 = Raise KeyError.
Proof.
  apply (globe_flows_missing_year Samples.small_merged "Chad" 1999).
  - vm_compute. tauto.
  - vm_compute. intuition discriminate.
Defined.

(** ** The Sankey derivation in general *)

Section SankeyGeneral.
Import Pandas App.

Lemma py_index_nth (l : list string) (x : string) :
  forall i, py_index x l = Ok i -> nth_error l i = Some x.
Proof.
  induction l as [|y t IH]; simpl; intros i H; [discriminate|].
  destruct (String.eqb_spec y x) as [->|Hne].
  - injection H as <-. reflexivity.
  - destruct (py_index x t) as [j|e]; cbn [bind] in H; [|discriminate].
    injection H as <-. simpl. apply IH. reflexivity.
Qed.

Lemma Forall2_map_eq {A B C : Type} (f : A -> C) (g : B -> C) (R : A -> B -> Prop)
    (l : list A) (l' : list B) :
  (forall a b, R a b -> g b = f a) -> Forall2 R l l' -> map g l' = map f l.
Proof.
  intros HR. induction 1 as [|a b t t' Hab HF IH]; simpl; [reflexivity|].
  rewrite (HR a b Hab), IH. reflexivity.
Qed.

Lemma filter_keeps_entities_distinct (keep : MergedRow -> bool) (l : list MergedRow) :
  NoDup (map m_Entity l) -> NoDup (map m_Entity (filter keep l)).
Proof.
  intros Hnd. induction l as [|r t IH]; simpl; [constructor|].
  simpl in Hnd. apply NoDup_cons_iff in Hnd. destruct Hnd as [Hnotin Hnd].
  destruct (keep r); simpl; [|apply IH, Hnd].
  apply NoDup_cons_iff. split; [|apply IH, Hnd].
  intros Hin. apply Hnotin. apply in_map_iff in Hin.
  destruct Hin as [y [E Hy]]. apply filter_In in Hy.
  apply in_map_iff. exists y. tauto.
Qed.

Lemma NoDup_firstn {A : Type} (n : nat) (l : list A) : NoDup l -> NoDup (firstn n l).
Proof.
  intros H. rewrite <- (firstn_skipn n l) in H.
  apply NoDup_app_remove_r in H. exact H.
Qed.

Lemma nlargest_labels_distinct (n : nat) (l : list SourceRow) :
  NoDup (map fst l) -> NoDup (map fst (nlargest n l)).
Proof.
  intros H. unfold nlargest. rewrite <- firstn_map. apply NoDup_firstn.
  eapply Permutation_NoDup; [|exact H].
  apply Permutation_map, sort_by_perm.
Qed.
End SankeyGeneral.

(** X17. What the Sankey derivation returns in general.  On a merged table
    whose rows have one cell per column, for a year that is a column and any
    destination D (in the table or not), the derivation succeeds and its
    output is read off a ranking: one entry per row not named D (the row's
    name and its cell at the position of the year among the columns), the
    entries rearranged so that each is at least every later one; the selected
    sources are the first ten entries of the ranking, so they stand for
    different rows; the labels are their names followed by D and the values
    their values; every edge has target 10; the source index of each edge
    points at a label equal to the source's name; and D is found at position
    min(10, number of eligible rows) of the labels. *)
Theorem sankey_general (merged : App.Merged) (D : string) (year : Z) :
  (forall r, In r (App.m_rows merged) ->
     length (App.m_values r) = length (App.m_columns merged)) ->
  In year (App.m_columns merged) ->
  exists sk (sources ranked : list App.SourceRow),
    App.sankey merged D year = Ok sk
    /\ Forall2
         (fun r s =>
            fst s = App.m_Entity r
            /\ exists i,
                 nth_error (App.m_columns merged) i = Some year
                 /\ (forall j, (j < i)%nat ->
                       nth_error (App.m_columns merged) j <> Some year)
                 /\ nth_error (App.m_values r) i = Some (snd s))
         (filter (fun r => negb (String.eqb (App.m_Entity r) D)) (App.m_rows merged))
         sources
    /\ Permutation sources ranked
    /\ StronglySorted (fun a b => App.cell_geb (snd a) (snd b) = true) ranked
    /\ App.labels sk = map fst (firstn 10 ranked) ++ [D]
    /\ App.sankey_value sk = map snd (firstn 10 ranked)
    /\ App.sankey_target sk = repeat 10%nat (Nat.min 10 (length sources))
    /\ Forall2 (fun s i => nth_error (App.labels sk) i = Some (fst s))
         (firstn 10 ranked) (App.sankey_source sk)
    /\ App.py_index D (App.labels sk) = Ok (Nat.min 10 (length sources)).
Proof.
  intros Hwf Hy.
  destruct (sankey_shape merged D year Hy Hwf)
    as [sources [sk (Es & HF & Ek & El & Et & Ev & HI & HD & _)]].
  exists sk, sources, (sort_by (fun a b => App.cell_geb (snd a) (snd b)) sources).
  split; [exact Ek|]. split.
  { eapply Forall2_impl; [|exact HF]. cbv beta. intros r s [H1 Hv].
    split; [exact H1|apply (row_get_position _ _ _ _ Hv)]. }
  split; [apply sort_by_perm|]. split.
  { apply Sorted_StronglySorted.
    - intros a b c. apply cell_geb_trans.
    - apply (sort_by_sorted (fun a b : App.SourceRow => App.cell_geb (snd a) (snd b))).
      intros x y. apply cell_geb_total. }
  split; [exact El|]. split; [exact Ev|]. split; [exact Et|]. split.
  { eapply Forall2_impl; [|exact HI]. intros s i. apply py_index_nth. }
  exact HD.
Qed.

Lemma sankey_general_witness :
  exists sk (ranked : list App.SourceRow),
    App.sankey Samples.small_merged "Chad" 2015 = Ok sk
    /\ App.labels sk = map fst (firstn 10 ranked) ++ ["Chad"%string]
    /\ length ranked = 2%nat.
Proof.
  destruct (sankey_general Samples.small_merged "Chad" 2015)
    as [sk [sources [ranked (Ek & HF & Hp & _ & El & _)]]].
  - intros r Hr. vm_compute in Hr.
    destruct Hr as [<-|[<-|[<-|[]]]]; reflexivity.
  - vm_compute. tauto.
  - exists sk, ranked. split; [exact Ek|]. split; [exact El|].
    etransitivity; [symmetry; apply (Permutation_length Hp)|].
    etransitivity; [symmetry; apply (Forall2_length HF)|]. reflexivity.
Defined.

(** X18. With at least ten eligible sources of pairwise distinct names the
    Sankey data is wired as intended: eleven labels, the destination at
    position 10, the edges' source indices 0 to 9 in order, and all ten edges
    pointing at position 10. *)
Theorem sankey_ten_sources (merged : App.Merged) (D : string) (year : Z) :
  (forall r, In r (App.m_rows merged) ->
     length (App.m_values r) = length (App.m_columns merged)) ->
  In year (App.m_columns merged) ->
  NoDup (App.entities merged) ->
  (10 <= length (filter (fun r => negb (String.eqb (App.m_Entity r) D))
                   (App.m_rows merged)))%nat ->
  exists sk,
    App.sankey merged D year = Ok sk
    /\ length (App.labels sk) = 11%nat
    /\ nth_error (App.labels sk) 10 = Some D
    /\ App.sankey_source sk = seq 0 10
    /\ App.sankey_target sk = repeat 10%nat 10
    /\ length (App.sankey_value sk) = 10%nat.
Proof.
  intros Hwf Hy Hnd Hten.
  destruct (sankey_shape merged D year Hy Hwf)
    as [sources [sk (Es & HF & Ek & El & Et & Ev & HI & HD & Hseq)]].
  pose proof (Forall2_length HF) as Hlen.
  assert (Hmin : Nat.min App.N (length sources) = 10%nat).
  { unfold App.N, App.SourceRow in *. lia. }
  assert (Hlab : NoDup (map fst (App.nlargest App.N sources))).
  { apply nlargest_labels_distinct.
    rewrite (Forall2_map_eq App.m_Entity fst _ _ _
               (fun a b (H : fst b = App.m_Entity a /\ _) => proj1 H) HF).
    apply filter_keeps_entities_distinct, Hnd. }
  exists sk. split; [exact Ek|].
  split; [rewrite El, length_app, length_map, nlargest_length, Hmin; reflexivity|].
  split; [apply py_index_nth; rewrite HD, Hmin; reflexivity|].
  split; [rewrite (Hseq Hlab), Hmin; reflexivity|].
  split; [rewrite Et, Hmin; reflexivity|].
  rewrite Ev, length_map, nlargest_length, Hmin. reflexivity.
Qed.

Lemma sankey_ten_sources_witness :
  exists sk,
    App.sankey Samples.twelve_merged "Peru" 2020 = Ok sk
    /\ nth_error (App.labels sk) 10 = Some "Peru"%string
    /\ App.sankey_source sk = seq 0 10.
Proof.
  destruct (sankey_ten_sources Samples.twelve_merged "Peru" 2020)
    as [sk (Ek & _ & Hd & Hs & _)].
  - intros r Hr. vm_compute in Hr.
    repeat (destruct Hr as [<-|Hr]; [reflexivity|]). contradiction.
  - vm_compute. tauto.
  - assert (E : App.entities Samples.twelve_merged
                = nodup string_dec (App.entities Samples.twelve_merged))
      by (vm_compute; reflexivity).
    rewrite E. apply NoDup_nodup.
  - vm_compute. lia.
  - exists sk. split; [exact Ek|]. split; [exact Hd|exact Hs].
Defined.

(** X19. For a year that is not a column the Sankey derivation raises
    [KeyError] whatever the destination and the rows, an empty table
    included (the column is selected before any row is read). *)
Theorem sankey_missing_year (merged : App.Merged) (D : string) (year : Z) :
  ~ In year (App.m_columns merged) ->
  App.sankey merged D year = Raise KeyError.
Proof.
  intros Hn. unfold App.sankey, App.sources_df.
  rewrite (has_column_false _ _ Hn). reflexivity.
Qed.

Lemma sankey_missing_year_witness :
  App.sankey Samples.small_merged "Chad" 1999 = Raise KeyError.
Proof.
  apply sankey_missing_year. vm_compute. intuition discriminate.
Defined.

(** ** Whole runs of the script *)

Section RunFacts.
Import Pandas App.

Lemma loaded_columns (csv : list LongRow) (df : DataFrame) :
  load_migration_data csv = Ok df ->
  forall y, In y (columns df) <-> exists r, In r csv /\ Year r = y.
Proof.
  intros H y. destruct (load_migration_data_inv _ _ H) as [wide [Hp ->]].
  destruct (pivot_inv _ _ Hp) as (_ & Ec & _ & _).
  change (columns (rename fix_names (clean wide))) with (columns wide).
  rewrite Ec, sort_by_In, (unique_In Z.eqb Z.eqb_eq), in_map_iff.
  split; intros [r Hr]; exists r; tauto.
Qed.

Lemma loaded_columns_nonempty (csv : list LongRow) (df : DataFrame) :
  load_migration_data csv = Ok df -> csv <> [] -> columns df <> [].
Proof.
  intros H Hne E. destruct csv as [|r t]; [apply Hne; reflexivity|].
  assert (Hin : In (Year r) (columns df)).
  { apply (loaded_columns _ _ H). exists r. split; [left|]; reflexivity. }
  rewrite E in Hin. exact Hin.
Qed.

Lemma fold_min_spec (t : list Z) :
  forall x,
    In (fold_left Z.min t x) (x :: t)
    /\ forall c, In c (x :: t) -> (fold_left Z.min t x <= c)%Z.
Proof.
  induction t as [|a t IH]; intros x; simpl.
  - split; [left; reflexivity|]. intros c [->|[]]. lia.
  - destruct (IH (Z.min x a)) as [Hin Hle]. split.
    + destruct Hin as [E|Hin]; [|right; right; exact Hin].
      rewrite <- E. destruct (Z.min_spec x a) as [[_ ->]|[_ ->]]; auto.
    + intros c Hc.
      assert (Hm : (fold_left Z.min t (Z.min x a) <= Z.min x a)%Z)
        by (apply Hle; left; reflexivity).
      destruct Hc as [->|[->|Hc]]; [lia|lia|].
      apply Hle. right. exact Hc.
Qed.

(** With two different year columns the slider accepts its bounds and
    returns the widget's year, the default year while it is untouched. *)
Lemma selected_year_ok (df : DataFrame) (widget : option Z) :
  (exists a b, In a (columns df) /\ In b (columns df) /\ a <> b) ->
  (forall y, widget = Some y -> In y (columns df)) ->
  exists dy lo hi year,
    default_year df = Ok dy
    /\ py_min (years df) = Ok lo
    /\ py_max (years df) = Ok hi
    /\ slider lo hi dy widget = Ok year
    /\ year = match widget with Some y => y | None => dy end
    /\ In year (columns df).
Proof.
  intros (a & b & Ha & Hb & Hab) Hw. unfold default_year, years.
  pose proof (sort_by_In Z.leb (columns df)) as HIn.
  destruct (sort_by Z.leb (columns df)) as [|x t] eqn:E.
  - exfalso. apply (proj2 (HIn a)), Ha.
  - destruct (fold_max_spec t x) as [Hmax Hle].
    destruct (fold_min_spec t x) as [Hmin Hge].
    exists (fold_left Z.max t x), (fold_left Z.min t x), (fold_left Z.max t x).
    assert (Hlt : (fold_left Z.min t x < fold_left Z.max t x)%Z).
    { apply HIn in Ha. apply HIn in Hb.
      pose proof (Hle a Ha). pose proof (Hle b Hb).
      pose proof (Hge a Ha). pose proof (Hge b Hb). lia. }
    unfold slider. apply Z.ltb_lt in Hlt. rewrite Hlt.
    eexists. repeat (split; [reflexivity|]).
    destruct widget as [y|]; [apply Hw; reflexivity|apply HIn, Hmax].
Qed.

(** With one year column only the slider refuses its bounds. *)
Lemma selected_year_single (df : DataFrame) (widget : option Z) :
  columns df <> [] ->
  (forall a b, In a (columns df) -> In b (columns df) -> a = b) ->
  exists dy,
    default_year df = Ok dy
    /\ py_min (years df) = Ok dy
    /\ py_max (years df) = Ok dy
    /\ slider dy dy dy widget = Raise StreamlitInvalidMinMaxError.
Proof.
  intros Hne Hall. unfold default_year, years.
  pose proof (sort_by_In Z.leb (columns df)) as HIn.
  destruct (sort_by Z.leb (columns df)) as [|x t] eqn:E.
  - exfalso. destruct (columns df) as [|c cs]; [apply Hne; reflexivity|].
    apply (proj2 (HIn c)). left. reflexivity.
  - destruct (fold_max_spec t x) as [Hmax _].
    destruct (fold_min_spec t x) as [Hmin _].
    assert (Ex : In x (columns df)) by (apply HIn; left; reflexivity).
    pose proof (Hall _ x (proj1 (HIn _) Hmax) Ex) as Emax.
    pose proof (Hall _ x (proj1 (HIn _) Hmin) Ex) as Emin.
    exists x. cbn [py_max py_min]. rewrite Emax, Emin.
    repeat (split; [reflexivity|]).
    unfold slider. rewrite Z.ltb_irrefl. reflexivity.
Qed.

Lemma derive_no_rows (world : list WorldRow) (df : DataFrame) (sel : Selection) :
  (exists a b, In a (columns df) /\ In b (columns df) /\ a <> b) ->
  m_rows (merge world df) = [] ->
  (forall y, slider_year sel = Some y -> In y (columns df)) ->
  derive world df sel = Raise IndexError.
Proof.
  intros Hc Hr Hy. unfold derive.
  destruct (selected_year_ok df (slider_year sel) Hc Hy)
    as (dy & lo & hi & year & Ed & Elo & Ehi & Es & _ & Hyear).
  rewrite Ed, Elo, Ehi. cbn [bind]. rewrite Es. cbn [bind].
  change (columns df) with (m_columns (merge world df)) in Hyear.
  unfold choropleth. rewrite (has_column_true _ _ Hyear), Hr. cbn [choropleth_rows bind].
  assert (Hent : entities (merge world df) = []) by (unfold entities; rewrite Hr; reflexivity).
  destruct (selectbox_dest sel) as [d|].
  - unfold globe_flows. rewrite dest_row_absent; [reflexivity|].
    rewrite Hent. intros [].
  - unfold default_dest, country_options. rewrite Hent. reflexivity.
Qed.

Lemma derive_ok (world : list WorldRow) (df : DataFrame) (sel : Selection) :
  (exists a b, In a (columns df) /\ In b (columns df) /\ a <> b) ->
  (forall r, In r (m_rows (merge world df)) ->
     length (m_values r) = length (m_columns (merge world df))) ->
  m_rows (merge world df) <> [] ->
  (forall y, slider_year sel = Some y -> In y (columns df)) ->
  (forall d, selectbox_dest sel = Some d -> In d (entities (merge world df))) ->
  exists out,
    derive world df sel = Ok out
    /\ length (choropleth_values out) = length (m_rows (merge world df))
    /\ (length (flow_records out) < length (m_rows (merge world df)))%nat.
Proof.
  intros Hc Hwf Hne Hy Hd. unfold derive.
  destruct (selected_year_ok df (slider_year sel) Hc Hy)
    as (dy & lo & hi & year & Ed & Elo & Ehi & Es & _ & Hyear).
  rewrite Ed, Elo, Ehi. cbn [bind]. rewrite Es. cbn [bind].
  change (columns df) with (m_columns (merge world df)) in Hyear.
  set (merged := merge world df) in *.
  destruct (choropleth_rows_spec _ year (m_rows merged) Hwf Hyear) as [ch [Ech HFc]].
  unfold choropleth. rewrite (has_column_true _ _ Hyear), Ech. cbn [bind].
  assert (Hdest : exists d,
             match selectbox_dest sel with Some d => Some d | None => default_dest merged end
             = Some d /\ In d (entities merged)).
  { destruct (selectbox_dest sel) as [d|].
    - exists d. split; [reflexivity|apply Hd; reflexivity].
    - unfold default_dest.
      pose proof (country_options_In merged) as HIn.
      destruct (country_options merged) as [|d rest].
      + exfalso. destruct (m_rows merged) as [|r t] eqn:E; [apply Hne; reflexivity|].
        apply (proj2 (HIn (m_Entity r))). unfold entities. rewrite E. left. reflexivity.
      + exists d. split; [reflexivity|]. apply HIn. left. reflexivity. }
  destruct Hdest as [d [-> HdIn]].
  destruct (dest_row_found merged d HdIn) as [dest (Edest & En & Hdin)].
  destruct (flow_loop_spec (m_columns merged) d dest year (m_rows merged) Hwf Hyear [])
    as [fl [Efl HFf]].
  unfold globe_flows. rewrite Edest. cbn [bind]. rewrite Efl. cbn [bind app].
  destruct (sankey_shape merged d year Hyear Hwf) as [sources [sk (_ & _ & Esk & _)]].
  rewrite Esk. cbn [bind].
  eexists. split; [reflexivity|]. cbn [choropleth_values flow_records]. split.
  - symmetry. apply (Forall2_length HFc).
  - rewrite <- (Forall2_length HFf).
    clear -Hdin En. induction (m_rows merged) as [|r t IH]; [contradiction|]. simpl.
    destruct Hdin as [->|Hin].
    + rewrite En, String.eqb_refl. simpl.
      pose proof (filter_length_le (fun r => negb (String.eqb (m_Entity r) d)) t). lia.
    + specialize (IH Hin). destruct (negb (String.eqb (m_Entity r) d)); simpl; lia.
Qed.
End RunFacts.

Section RunEdges.
Import Pandas App.

Lemma merge_rows_nil (world : list WorldRow) (df : DataFrame) :
  (forall name, In name (index df) -> ~ In name (map w_Entity world)) ->
  m_rows (merge world df) = [].
Proof.
  intros H. unfold merge. cbn [m_rows].
  induction world as [|w world IH]; simpl; [reflexivity|].
  assert (F : filter (fun r => String.eqb (w_Entity w) (fst r)) (rows df) = []).
  { destruct (filter (fun r => String.eqb (w_Entity w) (fst r)) (rows df))
      as [|r t] eqn:E; [reflexivity|]. exfalso.
    assert (Hr : In r (filter (fun r => String.eqb (w_Entity w) (fst r)) (rows df)))
      by (rewrite E; left; reflexivity).
    apply filter_In in Hr. destruct Hr as [Hr Eq]. apply String.eqb_eq in Eq.
    apply (H (fst r)); [apply in_map, Hr|]. left. exact Eq. }
  rewrite F. simpl. apply IH.
  intros name Hn Hin. apply (H name Hn). right. exact Hin.
Qed.

Lemma loaded_columns_NoDup (csv : list LongRow) (df : DataFrame) :
  load_migration_data csv = Ok df -> NoDup (columns df).
Proof.
  intros H. destruct (load_migration_data_inv _ _ H) as [wide [Hp ->]].
  destruct (pivot_inv _ _ Hp) as (_ & Ec & _ & _).
  change (columns (rename fix_names (clean wide))) with (columns wide).
  rewrite Ec. apply sort_by_NoDup, unique_NoDup, Z.eqb_eq.
Qed.

(** A table with a row has at least five year columns: the row passed the
    threshold. *)
Lemma loaded_row_five_columns (csv : list LongRow) (df : DataFrame) :
  load_migration_data csv = Ok df ->
  forall e cells, In (e, cells) (rows df) -> (5 <= length (columns df))%nat.
Proof.
  intros H e cells Hin. destruct (load_migration_data_inv _ _ H) as [wide [Hp ->]].
  apply in_rows_rename in Hin. destruct Hin as [e0 [Hin _]].
  apply in_rows_clean in Hin. destruct Hin as [c0 (Hin & Hn & _ & _)].
  change (columns (rename fix_names (clean wide))) with (columns wide).
  rewrite <- (pivot_row_length _ _ Hp _ _ Hin).
  unfold count_valid in Hn. pose proof (filter_length_le notna c0). lia.
Qed.

Lemma two_distinct_years (l : list Z) :
  NoDup l -> (2 <= length l)%nat -> exists a b, In a l /\ In b l /\ a <> b.
Proof.
  intros Hnd Hlen. destruct l as [|a [|b t]]; simpl in Hlen; [lia|lia|].
  exists a, b. split; [left; reflexivity|]. split; [right; left; reflexivity|].
  inversion Hnd as [|? ? Hnotin _]; subst. intros ->. apply Hnotin. left. reflexivity.
Qed.

Lemma merged_row_in_table (world : list WorldRow) (df : DataFrame) (r : MergedRow) :
  In r (m_rows (merge world df)) -> In (m_Entity r, m_values r) (rows df).
Proof.
  unfold merge. cbn [m_rows]. intros H. apply in_flat_map in H.
  destruct H as [w [_ H]]. apply in_map_iff in H. destruct H as [[e cells] [<- Hin]].
  apply filter_In in Hin. destruct Hin as [Hin E]. apply String.eqb_eq in E.
  cbn in *. subst. exact Hin.
Qed.

Lemma load_geometries_names (shp : list ShapeRow) :
  map w_Entity (load_geometries shp) = map ADMIN shp.
Proof. unfold load_geometries. rewrite map_map. reflexivity. Qed.
End RunEdges.

(** X20. A run on good selections succeeds.  When the CSV loads, the merged
    table has at least one row, the slider holds a year column (or its
    default) and the destination is a name of the merged table (or the
    default), the script returns its three datasets: one choropleth entry per
    merged row and fewer flow records than merged rows (the destination's own
    rows are left out). *)
Theorem run_succeeds (fs : App.Files) (df : Pandas.DataFrame) (sel : App.Selection) :
  App.load_migration_data (App.migration_csv fs) = Ok df ->
  App.m_rows (App.merge (App.load_geometries (App.shapefile fs)) df) <> [] ->
  (forall y, App.slider_year sel = Some y -> In y (Pandas.columns df)) ->
  (forall d, App.selectbox_dest sel = Some d ->
     In d (App.entities (App.merge (App.load_geometries (App.shapefile fs)) df))) ->
  exists out,
    App.uncached_run fs sel = Ok out
    /\ length (App.choropleth_values out)
       = length (App.m_rows (App.merge (App.load_geometries (App.shapefile fs)) df))
    /\ (length (App.flow_records out)
        < length (App.m_rows (App.merge (App.load_geometries (App.shapefile fs)) df)))%nat.
Proof.
  intros Hl Hne Hy Hd. unfold App.uncached_run. rewrite Hl. cbn [bind].
  apply derive_ok; try assumption.
  - apply two_distinct_years; [apply (loaded_columns_NoDup _ _ Hl)|].
    destruct (App.m_rows (App.merge (App.load_geometries (App.shapefile fs)) df))
      as [|r t] eqn:E; [exfalso; apply Hne; reflexivity|].
    assert (Hr : In r (App.m_rows (App.merge (App.load_geometries (App.shapefile fs)) df)))
      by (rewrite E; left; reflexivity).
    apply merged_row_in_table in Hr.
    pose proof (loaded_row_five_columns _ _ Hl _ _ Hr). lia.
  - intros r Hr. apply (pipeline_merged_well_formed _ _ _ Hl r Hr).
Qed.

Lemma run_succeeds_witness :
  exists out,
    App.uncached_run Samples.small_files (App.mkSelection None (Some "Peru"%string)) = Ok out
    /\ length (App.choropleth_values out) = 3%nat.
Proof.
  destruct (run_succeeds Samples.small_files Samples.small_table
              (App.mkSelection None (Some "Peru"%string)))
    as [out (E & Hc & _)].
  - vm_compute. reflexivity.
  - vm_compute. discriminate.
  - intros y H. discriminate H.
  - intros d H. injection H as <-. vm_compute. tauto.
  - exists out. split; [exact E|]. rewrite Hc. vm_compute. reflexivity.
Defined.

(** X21. A run without a common name fails at the globe tab.  When the CSV
    loads and has records of at least two different years (so that the slider
    accepts its bounds), no row label of the loaded table is a name of the
    shapefile, and the slider holds a year column (or its default), the script
    raises [IndexError] whatever the destination widget holds: the merged
    table is empty, so the destination's row cannot be taken. *)
Theorem run_no_common_name (fs : App.Files) (df : Pandas.DataFrame) (sel : App.Selection) :
  App.load_migration_data (App.migration_csv fs) = Ok df ->
  (exists r1 r2, In r1 (App.migration_csv fs) /\ In r2 (App.migration_csv fs)
                 /\ Pandas.Year r1 <> Pandas.Year r2) ->
  (forall name, In name (Pandas.index df) -> ~ In name (map App.ADMIN (App.shapefile fs))) ->
  (forall y, App.slider_year sel = Some y -> In y (Pandas.columns df)) ->
  App.uncached_run fs sel = Raise IndexError.
Proof.
  intros Hl (r1 & r2 & H1 & H2 & Hne) Hnone Hy.
  unfold App.uncached_run. rewrite Hl. cbn [bind].
  apply derive_no_rows.
  - exists (Pandas.Year r1), (Pandas.Year r2).
    split; [apply (loaded_columns _ _ Hl); exists r1; tauto|].
    split; [apply (loaded_columns _ _ Hl); exists r2; tauto|exact Hne].
  - apply merge_rows_nil. rewrite load_geometries_names. exact Hnone.
  - exact Hy.
Qed.

Lemma run_no_common_name_witness :
  App.uncached_run (App.mkFiles Samples.small_csv []) (App.mkSelection None None)
  = Raise IndexError.
Proof.
  apply (run_no_common_name (App.mkFiles Samples.small_csv []) Samples.small_table).
  - vm_compute. reflexivity.
  - exists (Pandas.mkLongRow "Laos" 1990 (Some (inject_Z 10))),
      (Pandas.mkLongRow "Laos" 1995 (Some (inject_Z 20))).
    split; [vm_compute; tauto|]. split; [vm_compute; tauto|]. discriminate.
  - intros name _ [].
  - intros y H. discriminate H.
Defined.

(** X25. A CSV whose records all have one year stops the script at the
    slider: the table loads, the minimum and the maximum of the year domain
    coincide, and [st.slider] refuses them with
    [StreamlitInvalidMinMaxError], whatever the shapefile and the widgets
    hold. *)
Theorem run_single_year (fs : App.Files) (sel : App.Selection) :
  Pandas.has_duplicates (App.migration_csv fs) = false ->
  App.migration_csv fs <> [] ->
  (forall r1 r2, In r1 (App.migration_csv fs) -> In r2 (App.migration_csv fs) ->
     Pandas.Year r1 = Pandas.Year r2) ->
  App.uncached_run fs sel = Raise StreamlitInvalidMinMaxError.
Proof.
  intros Hd Hne Hone.
  destruct (App.load_migration_data (App.migration_csv fs)) as [df|e] eqn:Hl.
  - unfold App.uncached_run. rewrite Hl. cbn [bind]. unfold App.derive.
    destruct (selected_year_single df (App.slider_year sel))
      as (dy & Ed & Elo & Ehi & Es).
    + apply (loaded_columns_nonempty _ _ Hl Hne).
    + intros a b Ha Hb.
      apply (loaded_columns _ _ Hl) in Ha. apply (loaded_columns _ _ Hl) in Hb.
      destruct Ha as [r1 [H1 <-]]. destruct Hb as [r2 [H2 <-]]. apply Hone; assumption.
    + rewrite Ed, Elo, Ehi. cbn [bind]. rewrite Es. reflexivity.
  - exfalso. unfold App.load_migration_data, Pandas.pivot in Hl.
    rewrite Hd in Hl. discriminate Hl.
Qed.

Lemma run_single_year_witness :
  App.uncached_run
    (App.mkFiles (Samples.series "Chad" [(2020%Z, 5%Z)]) Samples.small_shapes)
    (App.mkSelection None None)
  = Raise StreamlitInvalidMinMaxError.
Proof.
  apply run_single_year.
  - reflexivity.
  - discriminate.
  - intros r1 r2 H1 H2. vm_compute in H1, H2.
    destruct H1 as [<-|[]]. destruct H2 as [<-|[]]. reflexivity.
Defined.

(** X22. A run on a bad CSV raises [ValueError]: on an empty CSV because
    the default year is the maximum of an empty list, and on a CSV with two
    records of one (entity, year) pair because the pivot refuses it; the
    selection plays no part. *)
Theorem run_value_error (fs : App.Files) (sel : App.Selection) :
  (App.migration_csv fs = [] -> App.uncached_run fs sel = Raise ValueError)
  /\ (Pandas.has_duplicates (App.migration_csv fs) = true ->
      App.uncached_run fs sel = Raise ValueError).
Proof.
  unfold App.uncached_run. split; intros H.
  - rewrite H. reflexivity.
  - unfold App.load_migration_data, Pandas.pivot. rewrite H. reflexivity.
Qed.

(** X23. The cache is keyed by the loader alone.  After a run whose load
    succeeded on files [fs1], a later run reads nothing: it returns what an
    uncached run on [fs1] returns for its selection, whatever files [fs2] are
    then on disk, and leaves the cache as it is.  A run whose load raised
    stores nothing, so the next run loads again. *)
Theorem cache_ignores_file_changes (fs1 fs2 : App.Files) (sel1 sel2 : App.Selection) :
  (forall df, App.load_migration_data (App.migration_csv fs1) = Ok df ->
     fst (App.script fs2 sel2 (snd (App.script fs1 sel1 App.empty_cache)))
     = App.uncached_run fs1 sel2
     /\ snd (App.script fs2 sel2 (snd (App.script fs1 sel1 App.empty_cache)))
        = snd (App.script fs1 sel1 App.empty_cache))
  /\ (forall e, App.load_migration_data (App.migration_csv fs1) = Raise e ->
        App.script fs1 sel1 App.empty_cache = (Raise e, App.empty_cache)
        /\ App.script fs2 sel2 (snd (App.script fs1 sel1 App.empty_cache))
           = App.script fs2 sel2 App.empty_cache).
Proof.
  split.
  - intros df H.
    unfold App.script, App.uncached_run, App.cached_load_migration_data,
      App.cached_load_geometries, App.empty_cache.
    cbn [App.cached_migration App.cached_world]. rewrite H. cbn. tauto.
  - intros e H.
    assert (E : App.script fs1 sel1 App.empty_cache = (Raise e, App.empty_cache)).
    { unfold App.script, App.cached_load_migration_data, App.empty_cache.
      cbn [App.cached_migration]. rewrite H. reflexivity. }
    rewrite E. split; reflexivity.
Qed.

(** ** Ties in the selection of the top sources *)

Section StableFacts.
Context {A : Type}.
Variable le : A -> A -> bool.

(** Inserting an element somewhere keeps [a] ahead of [b]. *)
Lemma ahead_app_mid (a b x : A) (p : list A) :
  forall q,
    (exists l1 l2 l3, p ++ q = l1 ++ a :: l2 ++ b :: l3) ->
    exists l1 l2 l3, p ++ x :: q = l1 ++ a :: l2 ++ b :: l3.
Proof.
  induction p as [|y p IH]; intros q (l1 & l2 & l3 & E); simpl in *.
  - exists (x :: l1), l2, l3. rewrite E. reflexivity.
  - destruct l1 as [|z l1]; simpl in E; injection E as -> E.
    + assert (Hb : In b (p ++ x :: q)).
      { assert (Hb0 : In b (p ++ q)) by (rewrite E; apply in_or_app; right; left; reflexivity).
        apply in_app_or in Hb0. apply in_or_app.
        destruct Hb0 as [H|H]; [left; exact H|right; right; exact H]. }
      apply in_split in Hb. destruct Hb as [m2 [m3 Em]].
      exists [], m2, m3. rewrite Em. reflexivity.
    + destruct (IH q) as (m1 & m2 & m3 & Em); [exists l1, l2, l3; exact E|].
      exists (z :: m1), m2, m3. rewrite Em. reflexivity.
Qed.

Lemma insert_splits (x : A) (s : list A) :
  exists p q, s = p ++ q /\ insert le x s = p ++ x :: q.
Proof.
  induction s as [|y t IH]; simpl.
  - exists [], []. split; reflexivity.
  - destruct (le x y).
    + exists [], (y :: t). split; reflexivity.
    + destruct IH as (p & q & E1 & E2).
      exists (y :: p), q. rewrite E1 at 1. rewrite E2. split; reflexivity.
Qed.

Lemma ahead_insert_old (a b x : A) (s : list A) :
  (exists l1 l2 l3, s = l1 ++ a :: l2 ++ b :: l3) ->
  exists l1 l2 l3, insert le x s = l1 ++ a :: l2 ++ b :: l3.
Proof.
  intros H. destruct (insert_splits x s) as (p & q & E1 & E2).
  rewrite E2. apply ahead_app_mid. rewrite <- E1. exact H.
Qed.

Lemma ahead_insert_new (x b : A) (s : list A) :
  In b s -> le x b = true ->
  exists l1 l2 l3, insert le x s = l1 ++ x :: l2 ++ b :: l3.
Proof.
  intros Hb Hle. induction s as [|y t IH]; [contradiction|]. simpl.
  destruct (le x y) eqn:E.
  - apply in_split in Hb. destruct Hb as [m2 [m3 Em]].
    exists [], m2, m3. rewrite Em. reflexivity.
  - destruct Hb as [->|Hb]; [congruence|].
    destruct (IH Hb) as (m1 & m2 & m3 & Em).
    exists (y :: m1), m2, m3. rewrite Em. reflexivity.
Qed.

(** The insertion sort never lets a later element overtake an earlier one
    that is [le] it. *)
Lemma sort_by_stable (a b : A) (l : list A) :
  (exists l1 l2 l3, l = l1 ++ a :: l2 ++ b :: l3) ->
  le a b = true ->
  exists s1 s2 s3, sort_by le l = s1 ++ a :: s2 ++ b :: s3.
Proof.
  intros (l1 & l2 & l3 & E) Hle. subst l.
  induction l1 as [|z l1 IH]; simpl.
  - apply ahead_insert_new; [|exact Hle].
    apply (sort_by_In le). apply in_or_app. right. left. reflexivity.
  - apply ahead_insert_old, IH.
Qed.
End StableFacts.

(** X24. Ties among the top sources keep the order of the table: when a row
    [a] stands before a row [b] in the table and the value of [a] is at least
    the value of [b] (equal values included), [a] is ranked before [b], and
    [nlargest] returns the first [n] rows of that ranking; so [b] is never
    selected ahead of [a]. *)
Theorem nlargest_stable (l l1 l2 l3 : list App.SourceRow) (a b : App.SourceRow) (n : nat) :
  l = l1 ++ a :: l2 ++ b :: l3 ->
  App.cell_geb (snd a) (snd b) = true ->
  exists s1 s2 s3,
    App.nlargest n l = firstn n (s1 ++ a :: s2 ++ b :: s3)
    /\ Permutation l (s1 ++ a :: s2 ++ b :: s3)
    /\ Sorted (fun x y => App.cell_geb (snd x) (snd y) = true) (s1 ++ a :: s2 ++ b :: s3).
Proof.
  intros E Hge.
  destruct (sort_by_stable (fun x y : App.SourceRow => App.cell_geb (snd x) (snd y))
              a b l) as (s1 & s2 & s3 & Es).
  - exists l1, l2, l3. exact E.
  - exact Hge.
  - exists s1, s2, s3. unfold App.nlargest. rewrite <- Es.
    split; [reflexivity|]. split; [apply sort_by_perm|].
    apply sort_by_sorted. intros x y. apply cell_geb_total.
Qed.

Lemma nlargest_stable_witness :
  exists s1 s2 s3,
    App.nlargest 2 [("Chad"%string, Some (13 # 1)); ("Peru"%string, Some (30 # 1));
                    ("Mali"%string, Some (13 # 1))]
    = firstn 2 (s1 ++ ("Chad"%string, Some (13 # 1)) :: s2
                   ++ ("Mali"%string, Some (13 # 1)) :: s3).
Proof.
  destruct (nlargest_stable
              [("Chad"%string, Some (13 # 1)); ("Peru"%string, Some (30 # 1));
               ("Mali"%string, Some (13 # 1))]
              [] [("Peru"%string, Some (30 # 1))] []
              ("Chad"%string, Some (13 # 1)) ("Mali"%string, Some (13 # 1)) 2)
    as (s1 & s2 & s3 & E & _).
  - reflexivity.
  - reflexivity.
  - exists s1, s2, s3. exact E.
Defined.
